(** * Mini Assistant (obsidian-mini-assistant): assistant layer and settings

    A shallow embedding of the plugin's request-execution layer
    ([src/openai_api.ts]), of the plugin class with its provider resolver,
    assistant factory and settings migration (the main plugin file) and of
    the compiled constants (the settings file), followed by the properties
    proved about them.

    Modelling conventions.
    - JavaScript values are the values a JSON document can hold, plus
      [undefined].  Objects are finite maps from property names to values.
      They inherit from [Object.prototype]; an own property named
      [toString], which in such a value is never a function, makes the
      conversion of the object to a string raise a [TypeError].
    - Numbers are IEEE 754 doubles.  The finite ones are kept as the exact
      dyadic rationals they are.  Where a number is read from digits
      ([parseInt], a decimal literal) it is rounded to the nearest double,
      ties to even, with overflow to [Infinity]; [Number::toString] writes
      the shortest decimal that reads back as the number, in exponent
      notation from [10^21] on and below [10^-6].
    - Strings are sequences of 8-bit code units.  White space is the
      [String.prototype.trim] set restricted to that range.
    - The render target of a streamed call is an input of the call: an
      element whose [innerHTML] accessor reads back the assigned text in
      the element's own way (unchanged on a plain object, serialised on a
      DOM element).
    - Network calls are answered by a [backend] function supplied by the
      caller of the model; every assignment to the render target, every
      request sent and every notice shown is recorded in the [world].
    - A function that can raise returns an [option]: [None] stands for the
      [TypeError]. *)

From Stdlib Require Import ZArith Ascii String List Bool Lia.
From stdpp Require Import base option list strings pretty gmap fin_maps.

Local Open Scope string_scope.
Local Open Scope Z_scope.

(* ===================================================================== *)
(** ** JavaScript runtime: values, strings, numbers                       *)
(* ===================================================================== *)

Module JS.

(** A Number is a double.  [Num z] is the double whose value is the
    integer [z] (positive zero for [z = 0]); [Frac n k], with [n] odd, is
    the double [n / 2^k], which is not an integer; [NegZero] is [-0]. *)
Inductive number : Type :=
| Num (z : Z)
| Frac (n : Z) (k : positive)
| NegZero
| NaN
| PosInf
| NegInf.

#[warnings="-register-all"] Inductive value : Type :=
| VUndefined
| VNull
| VBool (b : bool)
| VNumber (n : number)
| VString (s : string)
| VArray (items : list value)
| VObject (fields : gmap string value).

(** *** Strings *)

(** Code units removed by [trim] and skipped by [parseInt]:
    TAB, LF, VT, FF, CR, SP and NBSP. *)
Definition is_white (c : ascii) : bool :=
  match nat_of_ascii c with
  | 9%nat | 10%nat | 11%nat | 12%nat | 13%nat | 32%nat | 160%nat => true
  | _ => false
  end.

Fixpoint trimStart (s : string) : string :=
  match s with
  | String c s' => if is_white c then trimStart s' else s
  | EmptyString => EmptyString
  end.

Fixpoint trimEnd (s : string) : string :=
  match s with
  | String c s' =>
      match trimEnd s' with
      | EmptyString => if is_white c then EmptyString else String c EmptyString
      | r => String c r
      end
  | EmptyString => EmptyString
  end.

(** [s.trim()] *)
Definition trim (s : string) : string := trimEnd (trimStart s).

Definition is_empty (s : string) : bool :=
  match s with EmptyString => true | String _ _ => false end.

(** [a || b] on strings: the empty string is the only falsy string. *)
Definition or_else (a b : string) : string := if is_empty a then b else a.

Fixpoint starts_with (p s : string) : bool :=
  match p, s with
  | EmptyString, _ => true
  | String a p', String b s' => if Ascii.eqb a b then starts_with p' s' else false
  | String _ _, EmptyString => false
  end.

(** [s.includes(p)]: [p] occurs somewhere in [s]. *)
Fixpoint includes (p s : string) : bool :=
  starts_with p s ||
  match s with
  | String _ s' => includes p s'
  | EmptyString => false
  end.

(** Case folding of the [i] flag on 8-bit code units: only the ASCII
    letters have a counterpart. *)
Definition lower_ascii (c : ascii) : ascii :=
  let n := nat_of_ascii c in
  if (65 <=? n)%nat && (n <=? 90)%nat then ascii_of_nat (n + 32) else c.

Fixpoint lower (s : string) : string :=
  match s with
  | String c s' => String (lower_ascii c) (lower s')
  | EmptyString => EmptyString
  end.

(** [/p/i.test(s)] for a pattern [p] made of literal characters. *)
Definition includes_ci (p s : string) : bool := includes (lower p) (lower s).

(** [/p1|p2|.../.test(s)] for literal alternatives. *)
Definition test_any (alternatives : list string) (s : string) : bool :=
  existsb (fun p => includes p s) alternatives.

Definition test_any_ci (alternatives : list string) (s : string) : bool :=
  existsb (fun p => includes_ci p s) alternatives.

(** [s.replace(/\/?$/, "")]: the pattern matches first at a final slash
    when there is one and at the end of input otherwise, so exactly one
    trailing slash is removed. *)
Fixpoint strip_trailing_slash (s : string) : string :=
  match s with
  | String c s' =>
      if is_empty s' && Ascii.eqb c "/" then EmptyString
      else String c (strip_trailing_slash s')
  | EmptyString => EmptyString
  end.

(** [parts.join(sep)] *)
Fixpoint join (sep : string) (parts : list string) : string :=
  match parts with
  | [] => EmptyString
  | [p] => p
  | p :: rest => p ++ sep ++ join sep rest
  end.

(** *** Numbers *)

Definition number_eqb (a b : number) : bool :=
  match a, b with
  | Num x, Num y => x =? y
  | Frac n k, Frac n' k' => (n =? n') && (k =? k')%positive
  | NegZero, NegZero | NaN, NaN | PosInf, PosInf | NegInf, NegInf => true
  | _, _ => false
  end.

(** [p / (q * 2^e)] as a fraction of two integers. *)
Definition scaled (p q e : Z) : Z * Z :=
  if 0 <=? e then (p, q * 2 ^ e) else (p * 2 ^ (- e), q).

(** The binary exponent of [p / q]: the [e] with [2^e <= p / q < 2^(e+1)],
    for positive [p] and [q]. *)
Definition binade (p q : Z) : Z :=
  let e0 := Z.log2 p - Z.log2 q in
  let '(a, b) := scaled p q e0 in
  if b <=? a then e0 else e0 - 1.

(** The number of factors 2 of a positive integer. *)
Fixpoint twos (p : positive) : Z :=
  match p with
  | xO p' => 1 + twos p'
  | _ => 0
  end.

(** The number [m * 2^e], for [m >= 0]. *)
Definition dyadic (m e : Z) : number :=
  if 0 <=? e then Num (m * 2 ^ e)
  else
    match m with
    | Zpos p =>
        let t := Z.min (twos p) (- e) in
        if t =? - e then Num (m / 2 ^ t)
        else Frac (m / 2 ^ t) (Z.to_pos (- e - t))
    | _ => Num 0
    end.

(** The double nearest to [p / q], for [p >= 0] and [q > 0]: the quotient
    is cut to 53 significant bits (fewer below [2^-1022], where the last
    bit stands for [2^-1074]) and rounded to nearest, ties to the even
    significand; a result of [2^1024] or more is [Infinity]. *)
Definition to_double (p q : Z) : number :=
  if p <=? 0 then Num 0
  else
    let e := Z.max (binade p q - 52) (-1074) in
    let '(a, b) := scaled p q e in
    let m := a / b in
    let r := a mod b in
    let m' := if (b <? 2 * r) || ((b =? 2 * r) && Z.odd m) then m + 1 else m in
    if (0 <=? e) && (2 ^ 1024 <=? m' * 2 ^ e) then PosInf else dyadic m' e.

(** The values of type [number] that are doubles: those that rounding
    leaves as they are. *)
Definition is_double (n : number) : bool :=
  match n with
  | Num z => number_eqb (to_double (Z.abs z) 1) (Num (Z.abs z))
  | Frac m k => number_eqb (to_double (Z.abs m) (2 ^ Z.pos k)) (Frac (Z.abs m) k)
  | _ => true
  end.

(** [-n] *)
Definition negate (n : number) : number :=
  match n with
  | Num 0 => NegZero
  | Num z => Num (- z)
  | Frac m k => Frac (- m) k
  | NegZero => Num 0
  | NaN => NaN
  | PosInf => NegInf
  | NegInf => PosInf
  end.

(** The value of the decimal literal [s * 10^j], for [s >= 0]. *)
Definition decimal (s j : Z) : number :=
  if 0 <=? j then to_double (s * 10 ^ j) 1 else to_double s (10 ^ (- j)).

Definition digit_of_ascii (c : ascii) : option Z :=
  let n := nat_of_ascii c in
  if (48 <=? n)%nat && (n <=? 57)%nat then Some (Z.of_nat n - 48) else None.

(** The longest prefix of decimal digits, read left to right; [acc] is
    [None] until a digit has been seen. *)
Fixpoint parse_digits (s : string) (acc : option Z) : option Z :=
  match s with
  | String c s' =>
      match digit_of_ascii c with
      | Some d => parse_digits s' (Some (10 * default 0 acc + d))
      | None => acc
      end
  | EmptyString => acc
  end.

(** [Number.parseInt(s, 10)]: skip leading white space, read an optional
    sign, then the longest run of digits; [NaN] when there is none.
    Whatever follows the digits is ignored.  The integer read is rounded
    to a double, and negated under a minus sign ([-0] for ["-0"]). *)
Definition parseInt (s : string) : number :=
  let s1 := trimStart s in
  let '(sign, body) :=
    match s1 with
    | String c s2 =>
        if Ascii.eqb c "-" then (-1, s2)
        else if Ascii.eqb c "+" then (1, s2)
        else (1, s1)
    | EmptyString => (1, s1)
    end in
  match parse_digits body None with
  | Some z => if sign <? 0 then negate (to_double z 1) else to_double z 1
  | None => NaN
  end.

(** The magnitude of a finite number as a fraction. *)
Definition ratio (n : number) : Z * Z :=
  match n with
  | Num z => (Z.abs z, 1)
  | Frac m k => (Z.abs m, 2 ^ Z.pos k)
  | _ => (0, 1)
  end.

(** The least [t >= 1] with [q <= p * 10^t]. *)
Fixpoint shift_count (fuel : nat) (p q : Z) : Z :=
  match fuel with
  | O => 1
  | S fuel' => if q <=? p * 10 then 1 else 1 + shift_count fuel' (p * 10) q
  end.

(** The number of decimal digits of a positive integer. *)
Definition digit_count (z : Z) : Z := Z.of_nat (String.length (pretty z)).

(** The position of the decimal point of [p / q]: the [n] with
    [10^(n-1) <= p / q < 10^n]. *)
Definition point (p q : Z) : Z :=
  if q <=? p then digit_count (p / q)
  else 1 - shift_count (Z.to_nat (Z.log2 q)) p q.

(** [p / (q * 10^j)] as a fraction of two integers. *)
Definition shifted (p q j : Z) : Z * Z :=
  if 0 <=? j then (p, q * 10 ^ j) else (p * 10 ^ (- j), q).

(** The digits [s] for which [s * 10^j] reads back as [x], when there are
    any: [s] is one of the two integers next to [p / (q * 10^j)], the
    nearer one if both do. *)
Definition candidate (x : number) (p q j : Z) : option Z :=
  let '(a, b) := shifted p q j in
  let lo := a / b in
  let r := a mod b in
  let hi := lo + 1 in
  match number_eqb (decimal lo j) x, number_eqb (decimal hi j) x with
  | true, true =>
      Some (if (2 * r <? b) || ((2 * r =? b) && Z.even lo) then lo else hi)
  | true, false => Some lo
  | false, true => Some hi
  | false, false => None
  end.

(** The least number of digits, from [k] on, for which a decimal with
    that many digits reads back as [x]. *)
Fixpoint shortest (fuel : nat) (x : number) (p q n k : Z) : option (Z * Z) :=
  match fuel with
  | O => None
  | S fuel' =>
      match candidate x p q (n - k) with
      | Some s => Some (s, n - k)
      | None => shortest fuel' x p q n (k + 1)
      end
  end.

(** The decimal expansion of a finite number, which ends. *)
Definition exact (x : number) : Z * Z :=
  match x with
  | Num z => (Z.abs z, 0)
  | Frac m k => (Z.abs m * 5 ^ Z.pos k, - Z.pos k)
  | _ => (0, 0)
  end.

Fixpoint strip_zeros (fuel : nat) (s j : Z) : Z * Z :=
  match fuel with
  | O => (s, j)
  | S fuel' =>
      if (0 <? s) && (s mod 10 =? 0) then strip_zeros fuel' (s / 10) (j + 1)
      else (s, j)
  end.

(** The integers [s] and [n] of [Number::toString] for a positive finite
    [x]: [s] has as few digits as a decimal that reads back as [x] can
    have, [k] say, and [s * 10^(n-k)] reads back as [x].  No double needs
    more than 17 digits; the search is bounded by the length of the longest
    decimal expansion a double has, and the expansion itself stands behind
    it. *)
Definition shortest_digits (x : number) : Z * Z :=
  let '(p, q) := ratio x in
  let '(s, j) := default (exact x) (shortest 800 x p q (point p q) 1) in
  let '(s, j) := strip_zeros (String.length (pretty s)) s j in
  (s, digit_count s + j).

Fixpoint zeros (n : nat) : string :=
  match n with
  | O => EmptyString
  | S n' => String "0" (zeros n')
  end.

Fixpoint take_chars (n : nat) (s : string) : string :=
  match n, s with
  | S n', String c s' => String c (take_chars n' s')
  | _, _ => EmptyString
  end.

Fixpoint drop_chars (n : nat) (s : string) : string :=
  match n, s with
  | S n', String _ s' => drop_chars n' s'
  | _, _ => s
  end.

(** The text of [Number::toString] from the digits [s] and the position
    [n] of the decimal point: the digits followed by zeros up to 21
    digits, a decimal point inside or in front of the digits down to
    [10^-6], exponent notation otherwise. *)
Definition decimal_text (s n : Z) : string :=
  let ds := pretty s in
  let k := digit_count s in
  if (k <=? n) && (n <=? 21) then ds ++ zeros (Z.to_nat (n - k))
  else if (0 <? n) && (n <=? 21) then
    take_chars (Z.to_nat n) ds ++ "." ++ drop_chars (Z.to_nat n) ds
  else if (-6 <? n) && (n <=? 0) then "0." ++ zeros (Z.to_nat (- n)) ++ ds
  else
    let e := n - 1 in
    let exponent := (if e <? 0 then "-" else "+") ++ pretty (Z.abs e) in
    if k =? 1 then ds ++ "e" ++ exponent
    else take_chars 1 ds ++ "." ++ drop_chars 1 ds ++ "e" ++ exponent.

Definition positive_to_string (x : number) : string :=
  let '(s, n) := shortest_digits x in decimal_text s n.

(** [Number::toString] *)
Definition number_to_string (n : number) : string :=
  match n with
  | NaN => "NaN"
  | PosInf => "Infinity"
  | NegInf => "-Infinity"
  | NegZero => "0"
  | Num z =>
      if z =? 0 then "0"
      else if z <? 0 then "-" ++ positive_to_string (Num (- z))
      else positive_to_string n
  | Frac m k =>
      if m <? 0 then "-" ++ positive_to_string (Frac (- m) k)
      else positive_to_string n
  end.

Definition isNaN (n : number) : bool :=
  match n with NaN => true | _ => false end.

Definition isFinite (n : number) : bool :=
  match n with Num _ | Frac _ _ | NegZero => true | _ => false end.

(** [n < 0] and [n > 0]; every comparison with [NaN] is false. *)
Definition lt0 (n : number) : bool :=
  match n with
  | Num z => z <? 0
  | Frac m _ => m <? 0
  | NegInf => true
  | _ => false
  end.

Definition gt0 (n : number) : bool :=
  match n with
  | Num z => 0 <? z
  | Frac m _ => 0 <? m
  | PosInf => true
  | _ => false
  end.

(** *** Values *)

Definition is_string (v : value) : bool :=
  match v with VString _ => true | _ => false end.

Definition isArray (v : value) : bool :=
  match v with VArray _ => true | _ => false end.

(** ToBoolean *)
Definition truthy (v : value) : bool :=
  match v with
  | VUndefined | VNull => false
  | VBool b => b
  | VNumber (Num z) => negb (z =? 0)
  | VNumber (NegZero | NaN) => false
  | VNumber _ => true
  | VString s => negb (is_empty s)
  | VArray _ | VObject _ => true
  end.

(** [a ?? b] *)
Definition nullish (a b : value) : value :=
  match a with
  | VUndefined | VNull => b
  | _ => a
  end.

(** [String(v)]; on a value that is neither [undefined] nor [null] this
    is also [v.toString()] and what [String.prototype.concat] makes of
    [v].  Arrays join their elements with a comma, [null] and [undefined]
    elements giving the empty string.  An object is written by the
    [toString] it inherits; with a property [toString] of its own, which
    is not a function, the conversion raises. *)
Fixpoint to_String (v : value) : option string :=
  match v with
  | VUndefined => Some "undefined"
  | VNull => Some "null"
  | VBool true => Some "true"
  | VBool false => Some "false"
  | VNumber n => Some (number_to_string n)
  | VString s => Some s
  | VArray items =>
      join "," <$>
        (fix elements (l : list value) : option (list string) :=
           match l with
           | [] => Some []
           | x :: rest =>
               match
                 match x with
                 | VUndefined | VNull => Some EmptyString
                 | _ => to_String x
                 end, elements rest
               with
               | Some text, Some texts => Some (text :: texts)
               | _, _ => None
               end
           end) items
  | VObject fields =>
      match fields !! "toString" with
      | Some _ => None
      | None => Some "[object Object]"
      end
  end.

Definition index_key (i : nat) : string := pretty (Z.of_nat i).

Fixpoint chars (s : string) : list value :=
  match s with
  | String c s' => VString (String c EmptyString) :: chars s'
  | EmptyString => []
  end.

Definition indexed (items : list value) : gmap string value :=
  list_to_map (imap (fun i x => (index_key i, x)) items).

(** The own enumerable properties of a value, as [{...v}] copies them:
    the fields of an object, the elements of an array and the characters
    of a string under their indices, nothing for other values. *)
Definition own_props (v : value) : gmap string value :=
  match v with
  | VObject fields => fields
  | VArray items => indexed items
  | VString s => indexed (chars s)
  | _ => ∅
  end.

(** [o.k] for a name [k] that no prototype defines: the own property or
    [undefined]. *)
Definition get (o : gmap string value) (k : string) : value :=
  default VUndefined (o !! k).

Definition get_prop (v : value) (k : string) : value := get (own_props v) k.

End JS.
(* ===================================================================== *)
(** ** Compiled constants (the settings file)                             *)
(* ===================================================================== *)

Module Settings.

Definition OAI_IMAGE_CAPABLE_MODELS : list string :=
  [ "o1"; "o1-pro"; "o1-mini"; "o3"; "o3-mini"; "o4-mini";
    "gpt-4o"; "gpt-4o-mini"; "gpt-4-turbo"; "gpt-4.1" ].

Definition DEFAULT_TEXT_MODEL : string := "gpt-4o-mini".
Definition DEFAULT_IMAGE_MODEL : string := "gpt-image-1".
Definition DEFAULT_SPEECH_MODEL : string := "whisper-1".
Definition DEFAULT_API_BASE_URL : string := "https://api.openai.com/v1".
Definition DEFAULT_MAX_TOKENS : JS.number := JS.Num 0.

End Settings.

(* ===================================================================== *)
(** ** The assistants (src/openai_api.ts)                                 *)
(* ===================================================================== *)

Module Api.
Import JS Settings.

(** What a [catch] clause can receive: an [OpenAI.APIError] with its
    [message], its [code] ([None] for [null] or [undefined]) and the text
    [JSON.stringify] gives for its [error] body when [typeof] of the body
    is ["object"] ([None] otherwise); another [Error] with its [message];
    a string; anything else. *)
Inductive thrown : Type :=
| APIError (message : string) (code : option string) (error : option string)
| OtherError (message : string)
| ThrownString (s : string)
| ThrownOther.

Inductive notice : Type :=
| ApiErrorNotice (err : thrown)   (* new Notice(`OpenAI API Error: ${err}`) *)
| ErrNotice (err : thrown)        (* new Notice(err) *)
| TextNotice (text : string).

(** The object a request resolves to: its properties, what iterating it
    asynchronously yields, and the error that iteration ends with, if
    any. *)
Record response : Type := {
  body : value;
  chunks : list value;
  fault : option thrown;
}.

Inductive reply : Type :=
| Rejected (err : thrown)
| Resolved (r : response).

(** The observable state around a call. *)
Record world : Type := {
  innerHTML : string;                 (* what reading the render target gives *)
  assigned : list string;             (* every text assigned to it, oldest first *)
  sent : list (gmap string value);    (* every request object sent, oldest first *)
  notices : list notice;              (* every notice shown, oldest first *)
}.

(** A render target.  Its [innerHTML] is an accessor: assigning a text
    makes it the content, reading gives the content back as the element
    writes it out.  [read_back t] is what a read gives once [t] has been
    assigned: [t] itself for an object with a plain [innerHTML] field, the
    serialised form of the parsed markup for a DOM element. *)
Record element : Type := {
  read_back : string -> string;
}.

Definition set_innerHTML (el : element) (text : string) (w : world) : world :=
  {| innerHTML := read_back el text; assigned := assigned w ++ [text];
     sent := sent w; notices := notices w |}.

Definition send (params : gmap string value) (w : world) : world :=
  {| innerHTML := innerHTML w; assigned := assigned w;
     sent := sent w ++ [params]; notices := notices w |}.

Definition show (n : notice) (w : world) : world :=
  {| innerHTML := innerHTML w; assigned := assigned w;
     sent := sent w; notices := notices w ++ [n] |}.

(** [v?.k] *)
Definition opt_get (v : value) (k : string) : value :=
  match v with
  | VUndefined | VNull => VUndefined
  | _ => get_prop v k
  end.

Definition type_error : thrown := OtherError "TypeError".

Definition normalizeBaseUrl (baseUrl : string) : string :=
  let trimmed := trim baseUrl in
  let normalized := or_else trimmed DEFAULT_API_BASE_URL in
  strip_trailing_slash normalized.

Module OpenAIAssistant.

Record t : Type := {
  modelName : string;
  maxTokens : number;
  apiKey : string;
  speechModelName : string;
  baseUrl : string;
}.

Definition constructor (apiKey baseUrl modelName : string)
    (maxTokens : number) (speechModelName : string) : t :=
  {| baseUrl := normalizeBaseUrl baseUrl;
     modelName := or_else modelName DEFAULT_TEXT_MODEL;
     maxTokens := maxTokens;
     apiKey := apiKey;
     speechModelName := or_else speechModelName DEFAULT_SPEECH_MODEL |}.

Definition display_error (err : thrown) (w : world) : world :=
  match err with
  | APIError _ _ _ => show (ApiErrorNotice err) w
  | _ => show (ErrNotice err) w
  end.

(** The strings pushed onto [parts]. *)
Definition error_parts (err : thrown) : list string :=
  match err with
  | APIError message code error =>
      (if is_empty message then [] else [message]) ++
      match code with
      | Some c => if is_empty c then [] else [c]
      | None => []
      end ++
      match error with
      | Some json => [json]
      | None => []
      end
  | OtherError message => [message]
  | ThrownString s => [s]
  | ThrownOther => []
  end.

(** [/max[_-]?tokens|max_completion_tokens/i] *)
Definition max_tokens_pattern : list string :=
  [ "maxtokens"; "max_tokens"; "max-tokens"; "max_completion_tokens" ].

Definition shouldRetryWithoutMaxTokens (err : thrown) : bool :=
  let haystack := join " " (error_parts err) in
  test_any_ci max_tokens_pattern haystack.

(** [/o[124]/] *)
Definition reasoning_pattern : list string := [ "o1"; "o2"; "o4" ].

Section text_api_call.

Variable this : t.
(** The chat-completions endpoint: the reply to a request object,
    given how many requests were sent before it. *)
Variable backend : nat -> gmap string value -> reply.
Variable prompt_list : list value.
Variable htmlEl : option element.

(** [htmlEl !== undefined] *)
Definition streamMode : bool :=
  match htmlEl with
  | Some _ => true
  | None => false
  end.

Definition has_img : bool :=
  existsb (fun el => isArray (get_prop el "content")) prompt_list.

Definition model : string :=
  if has_img &&
     negb (existsb (String.eqb (modelName this)) OAI_IMAGE_CAPABLE_MODELS)
  then DEFAULT_TEXT_MODEL
  else modelName this.

Definition includeMaxTokens : bool :=
  isFinite (maxTokens this) && gt0 (maxTokens this).

Definition is_reasonning_model : bool := test_any reasoning_pattern model.

Definition build_params (omitMaxTokens : bool) : gmap string value :=
  let params : gmap string value :=
    {[ "messages" := VArray prompt_list;
       "model" := VString model;
       "stream" := VBool streamMode ]} in
  if includeMaxTokens && negb omitMaxTokens then
    if is_reasonning_model
    then <["max_completion_tokens" := VNumber (maxTokens this)]> params
    else <["max_tokens" := VNumber (maxTokens this)]> params
  else params.

(** [chunk.choices?.[0]?.delta?.content]; reading [choices] off a
    chunk that is [null] or [undefined] raises. *)
Definition chunk_content (chunk : value) : thrown + value :=
  match chunk with
  | VUndefined | VNull => inl type_error
  | _ => inr (opt_get (opt_get (opt_get (get_prop chunk "choices") "0")
                         "delta") "content")
  end.

(** The body of the [for await] loop, run over the chunks in order;
    [concat] raises on a content it cannot convert to a string. *)
Fixpoint consume (el : element) (cs : list value) (responseText : string)
    (w : world) : world * option thrown :=
  match cs with
  | [] => (w, None)
  | chunk :: rest =>
      match chunk_content chunk with
      | inl err => (w, Some err)
      | inr content =>
          if truthy content then
            match to_String content with
            | Some text =>
                let responseText' := responseText ++ text in
                consume el rest responseText' (set_innerHTML el responseText' w)
            | None => (w, Some type_error)
            end
          else consume el rest responseText w
      end
  end.

Definition sendRequest (omitMaxTokens : bool) (w : world)
  : world * (thrown + value) :=
  let w1 :=
    match htmlEl with
    | Some el => set_innerHTML el "" w
    | None => w
    end in
  let params := build_params omitMaxTokens in
  let w2 := send params w1 in
  match backend (length (sent w1)) params with
  | Rejected err => (w2, inl err)
  | Resolved r =>
      match htmlEl with
      | Some el =>
          match consume el (chunks r) "" w2 with
          | (w3, Some err) => (w3, inl err)
          | (w3, None) =>
              match fault r with
              | Some err => (w3, inl err)
              | None => (w3, inr (VString (innerHTML w3)))
              end
          end
      | None =>
          match body r with
          | VUndefined | VNull => (w2, inl type_error)
          | b => (w2, inr (opt_get (opt_get (opt_get (get_prop b "choices") "0")
                                      "message") "content"))
          end
      end
  end.

(** The [while (true)] loop; [fuel] bounds the number of rounds and
    [None] means it ran out. *)
Fixpoint attempts (fuel : nat) (omitMaxTokens : bool) (w : world)
  : option (world * value) :=
  match fuel with
  | O => None
  | S fuel' =>
      match sendRequest omitMaxTokens w with
      | (w', inr v) => Some (w', v)
      | (w', inl err) =>
          if negb omitMaxTokens && shouldRetryWithoutMaxTokens err
          then attempts fuel' true w'
          else Some (display_error err w', VUndefined)
      end
  end.

Definition text_api_call (fuel : nat) (w : world) : option (world * value) :=
  attempts fuel (negb includeMaxTokens) w.

End text_api_call.

End OpenAIAssistant.

Module AnthropicAssistant.

Record t : Type := {
  modelName : string;
  maxTokens : number;
  apiKey : string;
  baseUrl : string;
}.

Definition constructor (apiKey baseUrl modelName : string)
    (maxTokens : number) : t :=
  {| apiKey := apiKey;
     baseUrl := or_else (normalizeBaseUrl baseUrl) "https://api.anthropic.com/v1";
     modelName := or_else modelName "claude-3-5-sonnet-latest";
     maxTokens := maxTokens |}.

Definition display_error (err : thrown) (w : world) : world :=
  show (ErrNotice err) w.

(** The argument of obsidian's [request]; [body] is the object handed
    to [JSON.stringify]. *)
Record http_request : Type := {
  url : string;
  method : string;
  headers : list (string * string);
  body : gmap string value;
}.

Section text_api_call.

Variable this : t.
(** The Messages endpoint: an error, or the parsed response text
    ([None] when it is not JSON). *)
Variable backend : http_request -> thrown + option value.
Variable prompt_list : list value.

Definition build_request : http_request :=
  {| url := baseUrl this ++ "/messages";
     method := "POST";
     headers := [ ("x-api-key", apiKey this);
                  ("anthropic-version", "2023-06-01");
                  ("content-type", "application/json") ];
     body := {[ "model" := VString (modelName this);
                "max_tokens" := VNumber (maxTokens this);
                "messages" := VArray prompt_list;
                "stream" := VBool false ]} |}.

Definition text_api_call (w : world) : world * value :=
  match backend build_request with
  | inl err => (display_error err w, VUndefined)
  | inr None => (display_error (OtherError "SyntaxError") w, VUndefined)
  | inr (Some (VUndefined | VNull)) => (display_error type_error w, VUndefined)
  | inr (Some parsed) =>
      (w, nullish (opt_get (opt_get (get_prop parsed "content") "0") "text")
                  (VString ""))
  end.

End text_api_call.

End AnthropicAssistant.

End Api.
(* ===================================================================== *)
(** ** The plugin: resolver, factory, migration (the main plugin file)    *)
(* ===================================================================== *)

Module Plugin.
Import JS Settings Api.

Inductive Capability : Type := text | speech.
Inductive ProviderSlot : Type := slot1 | slot2.

Definition slot_number (slot : ProviderSlot) : number :=
  match slot with slot1 => Num 1 | slot2 => Num 2 end.

Definition slot_eqb (a b : ProviderSlot) : bool :=
  match a, b with
  | slot1, slot1 | slot2, slot2 => true
  | _, _ => false
  end.

Record AiAssistantSettings : Type := {
  apiKey1 : string;
  apiBaseUrl1 : string;
  apiKey2 : string;
  apiBaseUrl2 : string;
  textProvider : number;
  speechProvider : number;
  modelName : string;
  speechModelName : string;
  maxTokens : number;
  replaceSelection : bool;
  language : string;
}.

Definition DEFAULT_SETTINGS : AiAssistantSettings :=
  {| apiKey1 := "";
     apiBaseUrl1 := DEFAULT_API_BASE_URL;
     apiKey2 := "";
     apiBaseUrl2 := "";
     textProvider := Num 1;
     speechProvider := Num 1;
     modelName := DEFAULT_TEXT_MODEL;
     speechModelName := DEFAULT_SPEECH_MODEL;
     maxTokens := DEFAULT_MAX_TOKENS;
     replaceSelection := true;
     language := "" |}.

(** A settings record as the object it is at run time. *)
Definition to_object (s : AiAssistantSettings) : gmap string value :=
  <["apiKey1" := VString (apiKey1 s)]>
  (<["apiBaseUrl1" := VString (apiBaseUrl1 s)]>
  (<["apiKey2" := VString (apiKey2 s)]>
  (<["apiBaseUrl2" := VString (apiBaseUrl2 s)]>
  (<["textProvider" := VNumber (textProvider s)]>
  (<["speechProvider" := VNumber (speechProvider s)]>
  (<["modelName" := VString (modelName s)]>
  (<["speechModelName" := VString (speechModelName s)]>
  (<["maxTokens" := VNumber (maxTokens s)]>
  (<["replaceSelection" := VBool (replaceSelection s)]>
  (<["language" := VString (language s)]> ∅)))))))))).

Inductive assistant : Type :=
| OpenAI (a : OpenAIAssistant.t)
| Anthropic (a : AnthropicAssistant.t).

(** [Partial<Record<Capability, ...>>] *)
Record assistants : Type := {
  for_text : option assistant;
  for_speech : option assistant;
}.

(** [Map<ProviderSlot, assistant | undefined>], in insertion order. *)
Definition slot_map : Type := list (ProviderSlot * option assistant).

Definition map_has (slot : ProviderSlot) (m : slot_map) : bool :=
  existsb (fun e => slot_eqb (fst e) slot) m.

Fixpoint map_get (slot : ProviderSlot) (m : slot_map) : option assistant :=
  match m with
  | [] => None
  | (k, v) :: rest => if slot_eqb k slot then v else map_get slot rest
  end.

Fixpoint map_set (slot : ProviderSlot) (v : option assistant) (m : slot_map)
  : slot_map :=
  match m with
  | [] => [(slot, v)]
  | (k, v') :: rest =>
      if slot_eqb k slot then (k, v) :: rest else (k, v') :: map_set slot v rest
  end.

(** [None]: [String(value ?? "")] raises. *)
Definition normalizeProviderSlot (v : value) : option ProviderSlot :=
  text ← to_String (nullish v (VString ""));
  let numeric := parseInt text in
  Some match numeric with
       | Num 2 => slot2
       | _ => slot1
       end.

(** [normalizeProviderSlot] on a number, which [String] always converts:
    the selectors of the settings are numbers. *)
Definition normalizeProviderSlot_number (n : number) : ProviderSlot :=
  let numeric := parseInt (number_to_string n) in
  match numeric with
  | Num 2 => slot2
  | _ => slot1
  end.

Section plugin.

(** [this.settings] *)
Variable settings : AiAssistantSettings.

Definition createAssistant (apiKey baseUrl : string) : assistant :=
  let effectiveBase := or_else baseUrl DEFAULT_API_BASE_URL in
  if includes_ci "anthropic.com" effectiveBase then
    Anthropic (AnthropicAssistant.constructor apiKey effectiveBase
                 (modelName settings) (maxTokens settings))
  else
    OpenAI (OpenAIAssistant.constructor apiKey effectiveBase
              (modelName settings) (maxTokens settings)
              (speechModelName settings)).

Definition getProviderConfig (slot : ProviderSlot) : string * string :=
  let keyField := match slot with slot1 => apiKey1 | slot2 => apiKey2 end in
  let urlField := match slot with slot1 => apiBaseUrl1 | slot2 => apiBaseUrl2 end in
  let apiKey := trim (or_else (keyField settings) "") in
  let baseUrl := trim (or_else (urlField settings) "") in
  let baseUrl :=
    if is_empty baseUrl && slot_eqb slot slot1 then DEFAULT_API_BASE_URL
    else baseUrl in
  (apiKey, or_else baseUrl "").

Definition resolveSlot (slot : ProviderSlot) (slotCache : slot_map)
  : slot_map * option assistant :=
  if map_has slot slotCache then (slotCache, map_get slot slotCache)
  else
    let config := getProviderConfig slot in
    if is_empty (fst config) then (map_set slot None slotCache, None)
    else
      let a := createAssistant (fst config) (snd config) in
      (map_set slot (Some a) slotCache, Some a).

Definition buildAssistants : assistants :=
  let slotCache : slot_map := [] in
  let textSlot := normalizeProviderSlot_number (textProvider settings) in
  let speechSlot := normalizeProviderSlot_number (speechProvider settings) in
  let '(slotCache, t) := resolveSlot textSlot slotCache in
  let '(slotCache, s) := resolveSlot speechSlot slotCache in
  {| for_text := t; for_speech := s |}.

End plugin.

Definition getAssistant (a : assistants) (capability : Capability)
  : option assistant :=
  match capability with
  | text => for_text a
  | speech => for_speech a
  end.

(** What a command callback does once it has asked for its assistant. *)
Inductive command_outcome : Type :=
| ShowNotice (message : string)
| OpenModal (capability : Capability) (a : assistant).

(** The callbacks of ["chat-mode"] and ["prompt-mode"] ask for [text],
    that of ["speech-to-text"] for [speech]. *)
Definition command (a : assistants) (capability : Capability) : command_outcome :=
  match getAssistant a capability with
  | None =>
      ShowNotice
        match capability with
        | text => "Configure a provider for chat in mini assistant settings."
        | speech =>
            "Configure a provider for speech-to-text in mini assistant settings."
        end
  | Some assistant => OpenModal capability assistant
  end.

(** The legacy key: the first of the candidates that is a string with a
    non-blank trimmed value. *)
Definition find_legacy (candidates : list value) : value :=
  default VUndefined
    (List.find (fun v => match v with
                         | VString s => negb (is_empty (trim s))
                         | _ => false
                         end) candidates).

Definition obsolete_fields : list string :=
  [ "openAIapiKey"; "anthropicApiKey"; "apiKey"; "apiBaseUrl"; "apiKey3";
    "apiBaseUrl3"; "imageProvider"; "imageModelName"; "imgFolder"; "mySetting" ].

(** [(v ?? "").toString().trim()]; [None]: [toString] raises. *)
Definition trimmed_text (v : value) : option value :=
  text ← to_String (nullish v (VString ""));
  Some (VString (trim text)).

(** [None]: one of the conversions to a string raises. *)
Definition migrateSettings (data : value) : option (gmap string value) :=
  if negb (truthy data) then Some ∅
  else
    let migrated : gmap string value := own_props data in
    let legacyKey :=
      find_legacy [ get_prop data "apiKey"; get_prop data "openAIapiKey";
                    get_prop data "anthropicApiKey" ] in
    let migrated :=
      if negb (is_string (get migrated "apiKey1")) then
        <["apiKey1" :=
            match legacyKey with
            | VString s => VString (trim s)
            | _ => VString ""
            end]> migrated
      else migrated in
    key1 ← trimmed_text (get migrated "apiKey1");
    let migrated := <["apiKey1" := key1]> migrated in
    key2 ← trimmed_text (get migrated "apiKey2");
    let migrated := <["apiKey2" := key2]> migrated in
    let legacyBase :=
      match get_prop data "apiBaseUrl" with
      | VString s =>
          if negb (is_empty (trim s)) then trim s else DEFAULT_API_BASE_URL
      | _ => DEFAULT_API_BASE_URL
      end in
    let migrated :=
      if negb (is_string (get migrated "apiBaseUrl1")) then
        <["apiBaseUrl1" := VString legacyBase]> migrated
      else migrated in
    url1 ← trimmed_text (get migrated "apiBaseUrl1");
    let migrated := <["apiBaseUrl1" := url1]> migrated in
    url2 ← trimmed_text (get migrated "apiBaseUrl2");
    let migrated := <["apiBaseUrl2" := url2]> migrated in
    let migrated :=
      if negb (truthy (get migrated "apiBaseUrl1")) then
        <["apiBaseUrl1" := VString DEFAULT_API_BASE_URL]> migrated
      else migrated in
    textSlot ← normalizeProviderSlot (get migrated "textProvider");
    let migrated :=
      <["textProvider" := VNumber (slot_number textSlot)]> migrated in
    speechSlot ← normalizeProviderSlot (get migrated "speechProvider");
    let migrated :=
      <["speechProvider" := VNumber (slot_number speechSlot)]> migrated in
    let migrated :=
      if negb (is_string (get migrated "speechModelName")) ||
         negb (truthy (get migrated "speechModelName"))
      then <["speechModelName" := VString DEFAULT_SPEECH_MODEL]> migrated
      else migrated in
    tokensText ←
      to_String
        (nullish (nullish (opt_get data "maxTokens") (get migrated "maxTokens"))
           (VString ""));
    let parsedTokens := parseInt tokensText in
    let migrated :=
      if isNaN parsedTokens || lt0 parsedTokens
      then <["maxTokens" := VNumber DEFAULT_MAX_TOKENS]> migrated
      else <["maxTokens" := VNumber parsedTokens]> migrated in
    Some (foldl (fun m k => delete k m) migrated obsolete_fields).

(** [Object.assign({}, DEFAULT_SETTINGS, migrated)] *)
Definition loadSettings (loaded : value) : option (gmap string value) :=
  migrated ← migrateSettings loaded;
  Some (migrated ∪ to_object DEFAULT_SETTINGS).

End Plugin.
(* ===================================================================== *)
(** ** Vocabulary of the specification                                    *)
(* ===================================================================== *)

Module Spec.
Import JS Settings Api Plugin.

(** *** Settings invariants (data model) *)

(** A non-negative integer; negative zero is one. *)
Definition nonneg_integer (n : number) : Prop :=
  match n with
  | Num z => 0 <= z
  | NegZero => True
  | _ => False
  end.

(** A number that is neither [NaN] nor negative and has no fractional
    part: a non-negative integer, or [Infinity]. *)
Definition nonneg_or_infinite (n : number) : Prop :=
  nonneg_integer n \/ n = PosInf.

(** The invariants the data model promises of loaded settings: the four
    slot fields are strings, the base URL of slot 1 is not empty, both
    provider selectors are 1 or 2, and [maxTokens] is a number of the
    given kind. *)
Record settings_invariant (limit : number -> Prop) (s : gmap string value)
  : Prop := {
  inv_apiKey1 : exists k, s !! "apiKey1" = Some (VString k);
  inv_apiKey2 : exists k, s !! "apiKey2" = Some (VString k);
  inv_apiBaseUrl1 :
    exists u, s !! "apiBaseUrl1" = Some (VString u) /\ u <> "";
  inv_apiBaseUrl2 : exists u, s !! "apiBaseUrl2" = Some (VString u);
  inv_textProvider :
    s !! "textProvider" = Some (VNumber (Num 1)) \/
    s !! "textProvider" = Some (VNumber (Num 2));
  inv_speechProvider :
    s !! "speechProvider" = Some (VNumber (Num 1)) \/
    s !! "speechProvider" = Some (VNumber (Num 2));
  inv_maxTokens : exists n, s !! "maxTokens" = Some (VNumber n) /\ limit n;
}.

(** The token limits the migration stores: a non-negative integer that is
    a double, negative zero, or [Infinity]. *)
Definition stored_limit (n : number) : Prop :=
  match n with
  | Num z => 0 <= z /\ to_double z 1 = Num z
  | NegZero | PosInf => True
  | _ => False
  end.

(** What the migration leaves behind on a present input: the fields it
    writes, trimmed and normalised, and none of the obsolete ones. *)
Record migrated_shape (m : gmap string value) : Prop := {
  shape_apiKey1 : exists s, m !! "apiKey1" = Some (VString s) /\ trim s = s;
  shape_apiKey2 : exists s, m !! "apiKey2" = Some (VString s) /\ trim s = s;
  shape_apiBaseUrl1 :
    exists s, m !! "apiBaseUrl1" = Some (VString s) /\ trim s = s /\
              is_empty s = false;
  shape_apiBaseUrl2 :
    exists s, m !! "apiBaseUrl2" = Some (VString s) /\ trim s = s;
  shape_textProvider :
    exists slot, m !! "textProvider" = Some (VNumber (slot_number slot));
  shape_speechProvider :
    exists slot, m !! "speechProvider" = Some (VNumber (slot_number slot));
  shape_speechModelName :
    exists s, m !! "speechModelName" = Some (VString s) /\ is_empty s = false;
  shape_maxTokens :
    exists n, m !! "maxTokens" = Some (VNumber n) /\ stored_limit n;
  shape_obsolete : forall k, k ∈ obsolete_fields -> m !! k = None;
}.

(** The fields of the persisted object that the migration converts to a
    string whatever they hold. *)
Definition stringified_fields : list string :=
  [ "apiKey2"; "apiBaseUrl2"; "textProvider"; "speechProvider"; "maxTokens" ].

(** The persisted object has a field that cannot be converted. *)
Definition unconvertible (data : value) : Prop :=
  exists k, k ∈ stringified_fields /\ to_String (get_prop data k) = None.

(** The fields the migration writes. *)
Definition written_fields : list string :=
  [ "apiKey1"; "apiKey2"; "apiBaseUrl1"; "apiBaseUrl2"; "textProvider";
    "speechProvider"; "speechModelName"; "maxTokens" ].

(** What the migration stores, field by field, in terms of the persisted
    object.  The key of slot 1: the current one if it is a string,
    otherwise the first legacy key that is a non-blank string, otherwise
    nothing; trimmed. *)
Definition migrated_apiKey1 (data : value) : string :=
  trim match get_prop data "apiKey1" with
       | VString s => s
       | _ =>
           match find_legacy [ get_prop data "apiKey"; get_prop data "openAIapiKey";
                               get_prop data "anthropicApiKey" ] with
           | VString l => trim l
           | _ => ""
           end
       end.

(** The base URL of slot 1: the current one if it is a string, otherwise
    the legacy one if it is a non-blank string, otherwise the default;
    trimmed, and the default again if that is empty. *)
Definition migrated_apiBaseUrl1 (data : value) : string :=
  or_else
    (trim match get_prop data "apiBaseUrl1" with
          | VString s => s
          | _ =>
              match get_prop data "apiBaseUrl" with
              | VString l => or_else (trim l) DEFAULT_API_BASE_URL
              | _ => DEFAULT_API_BASE_URL
              end
          end)
    DEFAULT_API_BASE_URL.

Definition migrated_speechModelName (data : value) : string :=
  match get_prop data "speechModelName" with
  | VString s => or_else s DEFAULT_SPEECH_MODEL
  | _ => DEFAULT_SPEECH_MODEL
  end.

(** The token limit stored for a text: the number [parseInt] reads,
    unless it is [NaN] or negative. *)
Definition stored_tokens (text : string) : number :=
  let parsedTokens := parseInt text in
  if isNaN parsedTokens || lt0 parsedTokens then DEFAULT_MAX_TOKENS
  else parsedTokens.

Record migrated_from (data : value) (m : gmap string value) : Prop := {
  from_apiKey1 : m !! "apiKey1" = Some (VString (migrated_apiKey1 data));
  from_apiKey2 :
    exists text,
      to_String (nullish (get_prop data "apiKey2") (VString "")) = Some text /\
      m !! "apiKey2" = Some (VString (trim text));
  from_apiBaseUrl1 :
    m !! "apiBaseUrl1" = Some (VString (migrated_apiBaseUrl1 data));
  from_apiBaseUrl2 :
    exists text,
      to_String (nullish (get_prop data "apiBaseUrl2") (VString "")) = Some text /\
      m !! "apiBaseUrl2" = Some (VString (trim text));
  from_textProvider :
    exists slot,
      normalizeProviderSlot (get_prop data "textProvider") = Some slot /\
      m !! "textProvider" = Some (VNumber (slot_number slot));
  from_speechProvider :
    exists slot,
      normalizeProviderSlot (get_prop data "speechProvider") = Some slot /\
      m !! "speechProvider" = Some (VNumber (slot_number slot));
  from_speechModelName :
    m !! "speechModelName" = Some (VString (migrated_speechModelName data));
  from_maxTokens :
    exists text,
      to_String (nullish (get_prop data "maxTokens") (VString "")) = Some text /\
      m !! "maxTokens" = Some (VNumber (stored_tokens text));
  from_obsolete : forall k, k ∈ obsolete_fields -> m !! k = None;
  from_other :
    forall k, k ∉ written_fields -> k ∉ obsolete_fields ->
              m !! k = own_props data !! k;
}.

(** The outcome of the migration on a present input: it raises on an
    unconvertible field, and returns the patch described above
    otherwise. *)
Definition migration_outcome (data : value)
    (result : option (gmap string value)) : Prop :=
  match result with
  | Some m => ~ unconvertible data /\ migrated_from data m
  | None => unconvertible data
  end.

(** The token limit a second migration makes of a stored one. *)
Definition reread (n : number) : number := stored_tokens (number_to_string n).

(** The integer at the start of a text, as [parseInt] delimits it: after
    leading white space an optional sign, then the longest run of digits;
    [None] when there is no digit. *)
Definition leading_integer (s : string) : option Z :=
  let s1 := trimStart s in
  let '(sign, body) :=
    match s1 with
    | String c s2 =>
        if Ascii.eqb c "-" then (-1, s2)
        else if Ascii.eqb c "+" then (1, s2)
        else (1, s1)
    | EmptyString => (1, s1)
    end in
  match parse_digits body None with
  | Some z => Some (sign * z)
  | None => None
  end.

(** The least integer that rounds to [Infinity]: [2^1024 - 2^970]. *)
Definition overflow_threshold : Z := 2 ^ 1024 - 2 ^ 970.

(** *** Resolver *)

(** The slot a capability is configured to use, and the API key stored
    for a slot. *)
Definition configured_slot (s : AiAssistantSettings) (c : Capability)
  : ProviderSlot :=
  normalizeProviderSlot_number
    match c with
    | text => textProvider s
    | speech => speechProvider s
    end.

Definition slot_key (s : AiAssistantSettings) (slot : ProviderSlot) : string :=
  match slot with
  | slot1 => apiKey1 s
  | slot2 => apiKey2 s
  end.

(** What resolving a slot gives when nothing is cached: absent for a blank
    key, otherwise the assistant the factory builds. *)
Definition resolve (s : AiAssistantSettings) (slot : ProviderSlot)
  : option assistant :=
  let config := getProviderConfig s slot in
  if is_empty (fst config) then None
  else Some (createAssistant s (fst config) (snd config)).

(** Blank: empty once trimmed. *)
Definition blank (s : string) : bool := is_empty (trim s).

(** *** Slot normalization, read strictly *)

Fixpoint all_digits (s : string) : bool :=
  match s with
  | String c s' =>
      match digit_of_ascii c with
      | Some _ => all_digits s'
      | None => false
      end
  | EmptyString => true
  end.

(** The integer a text denotes when it is nothing but an optionally
    signed run of digits (leading white space allowed); [None] for any
    other text. *)
Definition integer_of_text (s : string) : option Z :=
  let s1 := trimStart s in
  let '(sign, body) :=
    match s1 with
    | String c s2 =>
        if Ascii.eqb c "-" then (-1, s2)
        else if Ascii.eqb c "+" then (1, s2)
        else (1, s1)
    | EmptyString => (1, s1)
    end in
  if all_digits body then
    match parse_digits body None with
    | Some z => Some (sign * z)
    | None => None
    end
  else None.

(** The integer value of an input, when it has one: a number that is an
    integer below [10^21] in magnitude, the range in which a number is
    written with all its digits, or a text that is an integer; [None] for
    absent, non-numeric and malformed inputs. *)
Definition integer_value (v : value) : option Z :=
  match v with
  | VNumber (Num z) =>
      if is_double (Num z) && (Z.abs z <? 10 ^ 21) then Some z else None
  | VNumber NegZero => Some 0
  | VString s => integer_of_text s
  | _ => None
  end.

(** *** Provider detection, read on the host *)

Definition drop3 (s : string) : string :=
  match s with
  | String _ (String _ (String _ rest)) => rest
  | _ => EmptyString
  end.

Fixpoint after_scheme (s : string) : option string :=
  match s with
  | String c s' =>
      if starts_with "://" s then Some (drop3 s) else after_scheme s'
  | EmptyString => None
  end.

Fixpoint until_path (s : string) : string :=
  match s with
  | String c s' =>
      if Ascii.eqb c "/" || Ascii.eqb c "?" || Ascii.eqb c "#" then EmptyString
      else String c (until_path s')
  | EmptyString => EmptyString
  end.

(** The host part of a URL: what stands between the scheme separator
    and the first of [/], [?] and [#]. *)
Definition host (url : string) : string :=
  until_path (default url (after_scheme url)).

Inductive family : Type := OpenAICompatible | AnthropicFamily.

Definition family_of (a : assistant) : family :=
  match a with
  | OpenAI _ => OpenAICompatible
  | Anthropic _ => AnthropicFamily
  end.

(** *** Token-limit errors, read on the two parameter names *)

(** Message, code and body of a thrown value, as far as it has them. *)
Definition error_texts (err : thrown) : list string :=
  match err with
  | APIError message code error =>
      message :: option_list code ++ option_list error
  | OtherError message => [message]
  | ThrownString s => [s]
  | ThrownOther => []
  end.

Definition names_token_limit (t : string) : bool :=
  includes_ci "max_tokens" t || includes_ci "max_completion_tokens" t.

Definition mentions_token_limit (err : thrown) : bool :=
  existsb names_token_limit (error_texts err).

(** A request object carries a token-limit parameter. *)
Definition carries_limit (params : gmap string value) : bool :=
  bool_decide (is_Some (params !! "max_tokens")) ||
  bool_decide (is_Some (params !! "max_completion_tokens")).

(** *** Reasoning models, read as prefixes *)

Definition reasoning_prefix (model : string) : bool :=
  starts_with "o1" model || starts_with "o2" model || starts_with "o4" model.

(** *** Streaming *)

(** An object with a plain [innerHTML] field: it reads back what was
    assigned. *)
Definition plain_target : element := {| read_back := fun text => text |}.

(** Writing out a text node: [&], [<], [>] and the no-break space
    become character references. *)
Fixpoint escape_text (s : string) : string :=
  match s with
  | String c s' =>
      (if Ascii.eqb c "&" then "&amp;"
       else if Ascii.eqb c "<" then "&lt;"
       else if Ascii.eqb c ">" then "&gt;"
       else if Ascii.eqb c (ascii_of_nat 160) then "&nbsp;"
       else String c EmptyString) ++ escape_text s'
  | EmptyString => EmptyString
  end.

(** A DOM element, on the texts its parser keeps as a single text node
    (no [<] that opens a tag, no [&] that opens a character reference):
    assigning [innerHTML] makes the text the content, reading it writes
    the text node out. *)
Definition dom_target : element := {| read_back := escape_text |}.

(** The render target holds [text]: [text] is what was last assigned to
    it, and reading it gives [text] as the element reads it back. *)
Definition holds (el : element) (w : world) (text : string) : Prop :=
  last (assigned w) = Some text /\ innerHTML w = read_back el text.

(** The text a chunk contributes to the accumulator. *)
Definition fragment (chunk : value) : string :=
  match OpenAIAssistant.chunk_content chunk with
  | inr content =>
      if truthy content then default EmptyString (to_String content)
      else EmptyString
  | inl _ => EmptyString
  end.

Definition concat_fragments (cs : list value) : string :=
  fold_right String.append EmptyString (List.map fragment cs).

(** A chunk as the chat-completions stream delivers it:
    [{choices: [{delta: {content: text}}]}]. *)
Definition delta_chunk (text : string) : value :=
  VObject {[ "choices" :=
    VArray [ VObject {[ "delta" := VObject {[ "content" := VString text ]} ]} ] ]}.

(** A non-streamed completion: [{choices: [{message: {content: text}}]}]. *)
Definition completion (text : string) : value :=
  VObject {[ "choices" :=
    VArray [ VObject {[ "message" := VObject {[ "content" := VString text ]} ]} ] ]}.

(** *** Notices and blank texts *)

(** The notice [display_error] shows for an error. *)
Definition error_notice (err : thrown) : notice :=
  match err with
  | APIError _ _ _ => ApiErrorNotice err
  | _ => ErrNotice err
  end.

Fixpoint all_white (s : string) : bool :=
  match s with
  | String c s' => is_white c && all_white s'
  | EmptyString => true
  end.

(** The number of code units that are not white space. *)
Fixpoint count_black (s : string) : nat :=
  match s with
  | String c s' => (if is_white c then 0 else 1) + count_black s'
  | EmptyString => 0
  end.

End Spec.
(* ===================================================================== *)
(** ** Concrete configurations, backends and inputs                       *)
(* ===================================================================== *)

Module Scenarios.
Import JS Settings Api Plugin Spec.

Definition empty_world : world :=
  {| innerHTML := ""; assigned := []; sent := []; notices := [] |}.

(** An OpenAI-compatible assistant configured with [maxTokens = 500]. *)
Definition limited_assistant : OpenAIAssistant.t :=
  OpenAIAssistant.constructor "key" "" "gpt-4o-mini" (Num 500) "".

(** A backend that rejects the requests carrying a token-limit parameter
    with [reject] and answers the others with the completion ["Hi"]. *)
Definition rejecting_backend (reject : thrown) (n : nat)
    (params : gmap string value) : reply :=
  if carries_limit params then Rejected reject
  else Resolved {| body := completion "Hi"; chunks := []; fault := None |}.


(** An API error that names [max_tokens]. *)
Definition unsupported_parameter_error : thrown :=
  APIError "400 Unsupported parameter: 'max_tokens' is not supported with this model."
    (Some "unsupported_parameter") None.

(** A backend that streams the fragments ["Tom & "] and ["Jerry"]. *)
Definition ampersand_backend (n : nat) (params : gmap string value) : reply :=
  Resolved {| body := VUndefined;
              chunks := [delta_chunk "Tom & "; delta_chunk "Jerry"];
              fault := None |}.

(** A backend that streams the fragments ["Hel"] and ["lo"]. *)
Definition hello_backend (n : nat) (params : gmap string value) : reply :=
  Resolved {| body := VUndefined;
              chunks := [delta_chunk "Hel"; delta_chunk "lo"];
              fault := None |}.

(** Settings whose speech capability points at slot 2, which has a
    whitespace-only key. *)
Definition whitespace_key_settings : AiAssistantSettings :=
  {| apiKey1 := "sk-live";
     apiBaseUrl1 := DEFAULT_API_BASE_URL;
     apiKey2 := "   ";
     apiBaseUrl2 := "https://api.anthropic.com/v1";
     textProvider := Num 1;
     speechProvider := Num 2;
     modelName := DEFAULT_TEXT_MODEL;
     speechModelName := DEFAULT_SPEECH_MODEL;
     maxTokens := Num 0;
     replaceSelection := true;
     language := "" |}.

(** A persisted object in a legacy shape. *)
Definition legacy_settings : value :=
  VObject {[ "apiKey" := VString " sk-legacy ";
             "openAIapiKey" := VString "sk-other";
             "apiBaseUrl" := VString "https://example.org/v1/ ";
             "textProvider" := VString "2";
             "maxTokens" := VString "500";
             "imgFolder" := VString "AiAssistant/Assets" ]}.

(** The patch the migration makes of it. *)
Definition migrated_legacy_settings : gmap string value :=
  {[ "apiKey1" := VString "sk-legacy";
     "apiKey2" := VString "";
     "apiBaseUrl1" := VString "https://example.org/v1/";
     "apiBaseUrl2" := VString "";
     "textProvider" := VNumber (Num 2);
     "speechProvider" := VNumber (Num 1);
     "speechModelName" := VString "whisper-1";
     "maxTokens" := VNumber (Num 500) ]}.

(** A persisted object whose token limit is a text of 309 digits. *)
Definition overflowing_settings : value :=
  VObject {[ "maxTokens" := VString (String "2" (zeros 308)) ]}.

(** A persisted object with a key that is an object with a [toString]
    property of its own. *)
Definition unconvertible_settings : value :=
  VObject {[ "apiKey2" := VObject {[ "toString" := VString "sk" ]} ]}.

(** A persisted object whose token limit is [10^21]. *)
Definition sextillion_settings : value :=
  VObject {[ "maxTokens" := VString "1000000000000000000000" ]}.

End Scenarios.
(* ===================================================================== *)
(** ** Properties                                                         *)
(* ===================================================================== *)

Import JS Settings Api Plugin Spec Scenarios.

(** Name the value bound by the outermost [let] of the goal. *)
Ltac peel name :=
  lazymatch goal with
  | |- ?P (let x := ?v in @?b x) =>
      pose (name := v); change (P (b name)); cbv beta
  | |- (let x := ?v in @?b x) = ?r =>
      pose (name := v); change (b name = r); cbv beta
  end.

(** Membership in a list that is written out. *)
Ltac in_list :=
  repeat first [apply list_elem_of_here | apply list_elem_of_further].

(** Write a closed integer expression as its numeral. *)
Ltac numeral t := let c := eval vm_compute in t in change t with c in *.

#[local] Arguments to_double : simpl never.
#[local] Arguments number_to_string : simpl never.
#[local] Arguments parseInt : simpl never.

(** *** Strings *)

Lemma append_cons c (a b : string) : String c a ++ b = String c (a ++ b).
Proof. reflexivity. Qed.

Lemma append_assoc (a b c : string) : (a ++ b) ++ c = a ++ b ++ c.
Proof.
  induction a as [|x a IH]; [done|].
  rewrite !append_cons. by rewrite IH.
Qed.

Lemma append_empty_r (a : string) : a ++ "" = a.
Proof.
  induction a as [|x a IH]; [done|]. rewrite append_cons. by rewrite IH.
Qed.

Lemma trimStart_fixed c s :
  is_white c = false -> trimStart (String c s) = String c s.
Proof. intros H. simpl. by rewrite H. Qed.

Lemma trimEnd_idem s : trimEnd (trimEnd s) = trimEnd s.
Proof.
  induction s as [|c s IH]; [done|].
  simpl. destruct (trimEnd s) as [|c' r] eqn:E.
  - destruct (is_white c) eqn:W; [done|]. simpl. by rewrite W.
  - change (trimEnd (String c (String c' r)))
      with (match trimEnd (String c' r) with
            | EmptyString => if is_white c then EmptyString else String c EmptyString
            | r0 => String c r0
            end).
    by rewrite IH.
Qed.

Lemma trimEnd_head c s :
  is_white c = false -> exists r, trimEnd (String c s) = String c r.
Proof. intros W. simpl. destruct (trimEnd s); rewrite ?W; eauto. Qed.

Lemma trimStart_head s :
  trimStart s = EmptyString \/
  exists c r, trimStart s = String c r /\ is_white c = false.
Proof.
  induction s as [|c s IH]; [by left|].
  simpl. destruct (is_white c) eqn:W; [done|]. right; eauto.
Qed.

Lemma trim_idem s : trim (trim s) = trim s.
Proof.
  unfold trim.
  destruct (trimStart_head s) as [->|(c & r & -> & W)]; [done|].
  destruct (trimEnd_head c r W) as [r' E]. rewrite E.
  rewrite (trimStart_fixed _ _ W), <- E. apply trimEnd_idem.
Qed.

Lemma starts_with_spec p s :
  starts_with p s = true <-> exists b, s = p ++ b.
Proof.
  revert s. induction p as [|a p IH]; intros s; simpl.
  - split; eauto.
  - destruct s as [|b s].
    + split; [done|]. by intros [? ?].
    + destruct (Ascii.eqb_spec a b) as [->|Hne].
      * rewrite IH. split; intros [t Ht]; exists t; rewrite append_cons in *;
          congruence.
      * split; [done|]. intros [t Ht]. rewrite append_cons in Ht. congruence.
Qed.

(** [includes] is the substring relation. *)
Lemma includes_spec p s :
  includes p s = true <-> exists a b, s = a ++ p ++ b.
Proof.
  induction s as [|c s IH]; simpl.
  - rewrite orb_false_r, starts_with_spec. split.
    + intros [b Hb]. by exists "", b.
    + intros (a & b & H). destruct a; [by exists b|done].
  - rewrite orb_true_iff, starts_with_spec, IH. split.
    + intros [[b Hb]|(a & b & ->)]; [by exists "", b|by exists (String c a), b].
    + intros (a & b & H). destruct a as [|c' a]; [left; by exists b|].
      right. exists a, b. rewrite append_cons in H. congruence.
Qed.

Lemma lower_app a b : lower (a ++ b) = lower a ++ lower b.
Proof.
  induction a as [|c a IH]; [done|].
  rewrite append_cons. simpl. by rewrite IH.
Qed.

Lemma includes_app_l p a b : includes p a = true -> includes p (a ++ b) = true.
Proof.
  rewrite !includes_spec. intros (x & y & ->). exists x, (y ++ b).
  by rewrite !append_assoc.
Qed.

Lemma includes_app_r p a b : includes p b = true -> includes p (a ++ b) = true.
Proof.
  rewrite !includes_spec. intros (x & y & ->). exists (a ++ x), y.
  by rewrite !append_assoc.
Qed.

Lemma includes_ci_app_l p a b :
  includes_ci p a = true -> includes_ci p (a ++ b) = true.
Proof. unfold includes_ci. rewrite lower_app. apply includes_app_l. Qed.

Lemma includes_ci_app_r p a b :
  includes_ci p b = true -> includes_ci p (a ++ b) = true.
Proof. unfold includes_ci. rewrite lower_app. apply includes_app_r. Qed.

(** A match inside one of the joined parts is a match in the whole. *)
Lemma includes_ci_join p sep parts :
  existsb (includes_ci p) parts = true -> includes_ci p (join sep parts) = true.
Proof.
  induction parts as [|x parts IH]; [done|].
  simpl. rewrite orb_true_iff. intros [H|H].
  - destruct parts; [done|]. by apply includes_ci_app_l.
  - destruct parts as [|y parts]; [done|].
    apply includes_ci_app_r, includes_ci_app_r. by apply IH.
Qed.

(** *** Numbers: rounding *)

Lemma number_eqb_eq a b : number_eqb a b = true -> a = b.
Proof.
  destruct a, b; simpl; try done.
  - intros H. apply Z.eqb_eq in H. by subst.
  - rewrite andb_true_iff. intros [H1 H2]. apply Z.eqb_eq in H1.
    apply Pos.eqb_eq in H2. by subst.
Qed.

Lemma twos_shift (k : Z) : 0 <= k -> forall p : positive,
  k <= twos (Z.to_pos (Zpos p * 2 ^ k)).
Proof.
  intros Hk. pattern k. apply natlike_ind; [| |done].
  - intros p. rewrite Z.mul_1_r. simpl. induction p; simpl; lia.
  - intros x Hx IH p. rewrite Z.pow_succ_r by done.
    replace (Z.pos p * (2 * 2 ^ x)) with (2 * (Z.pos p * 2 ^ x)) by lia.
    specialize (IH p).
    assert (0 < 2 ^ x) by (apply Z.pow_pos_nonneg; lia).
    destruct (Z.pos p * 2 ^ x) as [|q|q] eqn:E; try lia.
    change (2 * Z.pos q) with (Z.pos q~0). cbn [Z.to_pos twos] in *. lia.
Qed.

Lemma binade_integer z : 0 < z -> binade z 1 = Z.log2 z.
Proof.
  intros Hz. unfold binade, scaled. change (Z.log2 1) with 0.
  rewrite Z.sub_0_r.
  pose proof (Z.log2_nonneg z) as Hl.
  destruct (Z.leb_spec 0 (Z.log2 z)); [|lia].
  pose proof (Z.log2_spec z Hz) as [Hlo _].
  destruct (Z.leb_spec (1 * 2 ^ Z.log2 z) z); lia.
Qed.

(** An integer below [2^53] is a double. *)
Lemma to_double_small z : 0 <= z < 2 ^ 53 -> to_double z 1 = Num z.
Proof.
  intros [Hz Hb]. unfold to_double.
  destruct (Z.leb_spec z 0) as [H0|H0]; [f_equal; lia|].
  rewrite binade_integer by done.
  assert (Hl : Z.log2 z < 53) by (apply Z.log2_lt_pow2; lia).
  pose proof (Z.log2_nonneg z) as Hl0.
  rewrite Z.max_l by lia.
  unfold scaled.
  destruct (Z.leb_spec 0 (Z.log2 z - 52)) as [He|He].
  - assert (Z.log2 z = 52) as E by lia. rewrite E. change (52 - 52) with 0.
    change (1 * 2 ^ 0) with 1. rewrite Z.div_1_r, Z.mod_1_r.
    change (1 <? 2 * 0) with false. change (1 =? 2 * 0) with false.
    cbn [orb andb]. change (0 <=? 0) with true. cbn [andb].
    destruct (Z.leb_spec (2 ^ 1024) (z * 2 ^ 0)) as [Ho|Ho].
    + exfalso. rewrite Z.mul_1_r in Ho.
      assert (2 ^ 53 < 2 ^ 1024) by (apply Z.pow_lt_mono_r; lia). lia.
    + unfold dyadic. change (0 <=? 0) with true. f_equal. lia.
  - rewrite Z.div_1_r, Z.mod_1_r.
    change (1 <? 2 * 0) with false. change (1 =? 2 * 0) with false.
    cbn [orb andb].
    unfold dyadic. destruct (Z.leb_spec 0 (Z.log2 z - 52)); [lia|].
    set (k := - (Z.log2 z - 52)). assert (Hk : 0 < k) by lia.
    assert (Hp : 0 < 2 ^ k) by (apply Z.pow_pos_nonneg; lia).
    destruct z as [|p|p]; try lia.
    pose proof (twos_shift k ltac:(lia) p) as Ht.
    destruct (Z.pos p * 2 ^ k) as [|q|q] eqn:E; try lia.
    simpl in Ht. rewrite Z.min_r by lia. rewrite Z.eqb_refl.
    f_equal. rewrite <- E. apply Z.div_mul. lia.
Qed.

(** What rounding an integer of 54 bits or more gives. *)
Lemma to_double_large z :
  2 ^ 53 <= z ->
  let e := Z.log2 z - 52 in
  let m := z / 2 ^ e in
  let r := z mod 2 ^ e in
  let m' := if (2 ^ e <? 2 * r) || ((2 ^ e =? 2 * r) && Z.odd m) then m + 1 else m in
  0 < e /\ 2 ^ 52 <= m < 2 ^ 53 /\
  to_double z 1 = if 2 ^ 1024 <=? m' * 2 ^ e then PosInf else Num (m' * 2 ^ e).
Proof.
  intros Hz e m r m'.
  assert (H53 : 0 < 2 ^ 53) by done.
  assert (Hl : 53 <= Z.log2 z) by (apply Z.log2_le_pow2; lia).
  assert (He : 0 < e) by (unfold e; lia).
  pose proof (Z.log2_spec z ltac:(lia)) as [Hlo Hhi].
  assert (Hpe : 0 < 2 ^ e) by (apply Z.pow_pos_nonneg; lia).
  assert (Hsplit : 2 ^ Z.log2 z = 2 ^ 52 * 2 ^ e).
  { rewrite <- Z.pow_add_r by lia. f_equal. unfold e. lia. }
  assert (Hsplit' : 2 ^ Z.succ (Z.log2 z) = 2 ^ 53 * 2 ^ e).
  { rewrite <- Z.pow_add_r by lia. f_equal. unfold e. lia. }
  split; [done|]. split.
  { unfold m. split.
    - apply Z.div_le_lower_bound; lia.
    - apply Z.div_lt_upper_bound; lia. }
  unfold to_double. destruct (Z.leb_spec z 0); [lia|].
  rewrite binade_integer by lia. rewrite Z.max_l by lia. fold e.
  unfold scaled. destruct (Z.leb_spec 0 e); [|lia].
  rewrite Z.mul_1_l. fold m r. fold m'. cbn [andb].
  unfold dyadic. destruct (Z.leb_spec 0 e); [|lia]. done.
Qed.

(** Rounding an integer gives an integer of the same sign, or an
    infinity. *)
Lemma to_double_integer z :
  0 <= z ->
  to_double z 1 = PosInf \/
  exists z', to_double z 1 = Num z' /\ 0 <= z' /\ (z' = 0 <-> z = 0) /\
             (z' < 2 ^ 53 -> z' = z).
Proof.
  intros Hz. destruct (Z.lt_ge_cases z (2 ^ 53)) as [Hs|Hl].
  - right. exists z. rewrite to_double_small by lia. done.
  - destruct (to_double_large z Hl) as (He & [Hm1 Hm2] & ->).
    destruct (_ <=? _); [by left|right]. eexists. split; [done|].
    set (e := Z.log2 z - 52) in *.
    assert (Hpe : 2 <= 2 ^ e).
    { change 2 with (2 ^ 1) at 1. apply Z.pow_le_mono_r; lia. }
    set (m := z / 2 ^ e) in *.
    assert (2 ^ 52 <= if (2 ^ e <? 2 * (z mod 2 ^ e))
                         || (2 ^ e =? 2 * (z mod 2 ^ e)) && Z.odd m
                      then m + 1 else m) by (destruct (_ || _); lia).
    assert (0 < 2 ^ 52) by done.
    assert (2 ^ 53 = 2 ^ 52 * 2) by done.
    repeat split; try nia.
Qed.

(** An integer with a significand of 53 bits is a double. *)
Lemma to_double_exact m e :
  2 ^ 52 <= m < 2 ^ 53 -> 0 <= e -> m * 2 ^ e < 2 ^ 1024 ->
  to_double (m * 2 ^ e) 1 = Num (m * 2 ^ e).
Proof.
  intros [Hm1 Hm2] He Ho.
  assert (H52 : 0 < 2 ^ 52) by done.
  assert (H53 : 2 ^ 53 = 2 * 2 ^ 52) by done.
  assert (Hpe : 0 < 2 ^ e) by (apply Z.pow_pos_nonneg; lia).
  destruct (decide (e = 0)) as [->|Hne].
  { rewrite Z.mul_1_r. apply to_double_small. lia. }
  assert (Hbig : 2 ^ 53 <= m * 2 ^ e).
  { assert (2 <= 2 ^ e).
    { change 2 with (2 ^ 1) at 1. apply Z.pow_le_mono_r; lia. }
    nia. }
  destruct (to_double_large _ Hbig) as (He2 & _ & ->).
  assert (Hlog : Z.log2 (m * 2 ^ e) = 52 + e).
  { apply Z.log2_unique; [lia|]. split.
    - rewrite Z.pow_add_r by lia. nia.
    - replace (Z.succ (52 + e)) with (53 + e) by lia.
      rewrite Z.pow_add_r by lia. nia. }
  rewrite Hlog. replace (52 + e - 52) with e by lia.
  rewrite Z.div_mul, Z.mod_mul by lia.
  replace (2 ^ e <? 2 * 0) with false by (symmetry; apply Z.ltb_ge; lia).
  replace (2 ^ e =? 2 * 0) with false by (symmetry; apply Z.eqb_neq; lia).
  cbn [orb andb].
  destruct (Z.leb_spec (2 ^ 1024) (m * 2 ^ e)); [lia|done].
Qed.

(** A double is its own rounding. *)
Lemma to_double_idem z z' :
  0 <= z -> to_double z 1 = Num z' -> to_double z' 1 = Num z'.
Proof.
  intros Hz E. destruct (Z.lt_ge_cases z (2 ^ 53)) as [Hs|Hl].
  - rewrite to_double_small in E by lia. injection E as <-.
    by apply to_double_small.
  - destruct (to_double_large z Hl) as (He & [Hm1 Hm2] & E').
    rewrite E in E'. clear E.
    set (e := Z.log2 z - 52) in *. set (m := z / 2 ^ e) in *.
    set (m' := if (_ <? _) || _ then m + 1 else m) in *.
    destruct (Z.leb_spec (2 ^ 1024) (m' * 2 ^ e)) as [Ho|Ho]; [done|].
    injection E' as ->.
    assert (Hpe : 0 < 2 ^ e) by (apply Z.pow_pos_nonneg; lia).
    assert (Hm' : 2 ^ 52 <= m' <= 2 ^ 53) by (unfold m'; destruct (_ || _); lia).
    assert (H53 : 2 ^ 53 = 2 * 2 ^ 52) by done.
    destruct (decide (m' = 2 ^ 53)) as [Em|Em].
    + assert (Hv : m' * 2 ^ e = 2 ^ 52 * 2 ^ (e + 1)).
      { rewrite Em, H53, Z.pow_add_r by lia. change (2 ^ 1) with 2. lia. }
      rewrite Hv in *. apply to_double_exact; [done|lia|lia].
    + apply to_double_exact; [lia|lia|lia].
Qed.

(** *** Numbers: printing then parsing *)

Lemma digit_of_pretty_char (d : N) :
  (d < 10)%N -> digit_of_ascii (pretty_N_char d) = Some (Z.of_N d).
Proof.
  intros H.
  assert (d = 0 \/ d = 1 \/ d = 2 \/ d = 3 \/ d = 4 \/ d = 5 \/ d = 6 \/
          d = 7 \/ d = 8 \/ d = 9)%N as Hd by lia.
  repeat destruct Hd as [->|Hd]; try subst d; reflexivity.
Qed.

Lemma pretty_char_plain (d : N) :
  is_white (pretty_N_char d) = false /\
  Ascii.eqb (pretty_N_char d) "-" = false /\
  Ascii.eqb (pretty_N_char d) "+" = false.
Proof. unfold pretty_N_char. repeat case_match; done. Qed.

(** Reading the digits that [pretty_N_go] wrote in front of [s] shifts the
    accumulator by a power of ten and adds the number written. *)
Lemma parse_pretty_go (x : N) :
  (0 < x)%N ->
  exists p, forall s acc,
    parse_digits (pretty_N_go x s) acc
    = parse_digits s (Some (default 0 acc * p + Z.of_N x)).
Proof.
  induction (N.lt_wf_0 x) as [x _ IH]. intros Hx.
  assert (Hd : (x `mod` 10 < 10)%N) by (apply N.mod_lt; lia).
  pose proof (N.div_mod x 10 ltac:(lia)) as Hdm.
  destruct (decide (x `div` 10 = 0)%N) as [Hq|Hq].
  - exists 10. intros s acc. rewrite pretty_N_go_step, Hq, pretty_N_go_0 by done.
    simpl. rewrite digit_of_pretty_char by done.
    do 2 f_equal. generalize (default 0 acc). intros a.
    rewrite Hq in Hdm. clear -Hdm. lia.
  - destruct (IH (x `div` 10)%N) as [p Hp].
    { apply N.div_lt; lia. }
    { by apply N.neq_0_lt_0. }
    exists (10 * p). intros s acc. rewrite pretty_N_go_step, Hp by done.
    simpl. rewrite digit_of_pretty_char by done.
    do 2 f_equal. generalize (default 0 acc). intros a. clear -Hdm. lia.
Qed.

Lemma pretty_go_head (x : N) s :
  (0 < x)%N -> exists d r, pretty_N_go x s = String (pretty_N_char d) r.
Proof.
  revert s. induction (N.lt_wf_0 x) as [x _ IH]. intros s Hx.
  rewrite pretty_N_go_step by done.
  destruct (decide (x `div` 10 = 0)%N) as [Hq|Hq].
  - rewrite Hq, pretty_N_go_0. eauto.
  - apply IH; [apply N.div_lt; lia|by apply N.neq_0_lt_0].
Qed.

Lemma pretty_go_app (x : N) s t :
  (0 < x)%N -> pretty_N_go x s ++ t = pretty_N_go x (s ++ t).
Proof.
  revert s. induction (N.lt_wf_0 x) as [x _ IH]. intros s Hx.
  rewrite (pretty_N_go_step x s), (pretty_N_go_step x (s ++ t)) by done.
  destruct (decide (x `div` 10 = 0)%N) as [Hq|Hq].
  - rewrite Hq, !pretty_N_go_0. reflexivity.
  - rewrite IH; [reflexivity|apply N.div_lt; lia|by apply N.neq_0_lt_0].
Qed.

(** The digits written for [x] are as many as [x] has. *)
Lemma pretty_go_length (x : N) s :
  (0 < x)%N ->
  exists n : nat,
    String.length (pretty_N_go x s) = (n + String.length s)%nat /\
    (1 <= n)%nat /\ 10 ^ (Z.of_nat n - 1) <= Z.of_N x < 10 ^ Z.of_nat n.
Proof.
  revert s. induction (N.lt_wf_0 x) as [x _ IH]. intros s Hx.
  rewrite pretty_N_go_step by done.
  pose proof (N.div_mod x 10 ltac:(lia)) as Hdm.
  assert (Hd : (x `mod` 10 < 10)%N) by (apply N.mod_lt; lia).
  destruct (decide (x `div` 10 = 0)%N) as [Hq|Hq].
  - rewrite Hq, pretty_N_go_0. exists 1%nat. simpl. split; [done|].
    split; [lia|]. rewrite Hq in Hdm. lia.
  - destruct (IH (x `div` 10)%N ltac:(apply N.div_lt; lia)
                (String (pretty_N_char (x `mod` 10)) s)
                ltac:(by apply N.neq_0_lt_0)) as (n & L & Hn & Hlo & Hhi).
    exists (S n). rewrite L. simpl String.length.
    split; [lia|]. split; [lia|].
    replace (Z.of_nat (S n) - 1) with (Z.succ (Z.of_nat n - 1)) by lia.
    replace (Z.of_nat (S n)) with (Z.succ (Z.of_nat n)) by lia.
    rewrite !Z.pow_succ_r by lia.
    apply (f_equal Z.of_N) in Hdm. rewrite N2Z.inj_add, N2Z.inj_mul in Hdm.
    apply N2Z.inj_lt in Hd. change (Z.of_N 10) with 10 in *.
    pose proof (N2Z.is_nonneg (x `mod` 10)) as Hnn.
    generalize dependent (10 ^ (Z.of_nat n - 1)).
    generalize dependent (10 ^ Z.of_nat n).
    generalize dependent (Z.of_N (x `div` 10)).
    generalize dependent (Z.of_N (x `mod` 10)).
    generalize dependent (Z.of_N x). intros. lia.
Qed.

Lemma digit_count_spec z :
  0 < z -> 1 <= digit_count z /\ 10 ^ (digit_count z - 1) <= z < 10 ^ digit_count z.
Proof.
  intros Hz. destruct z as [|p|p]; try lia.
  unfold digit_count. change (pretty (Z.pos p)) with (pretty_N_go (N.pos p) "").
  destruct (pretty_go_length (N.pos p) "" ltac:(lia)) as (n & -> & Hn & H).
  simpl String.length. rewrite Nat.add_0_r.
  change (Z.of_N (N.pos p)) with (Z.pos p) in H. lia.
Qed.

Lemma digit_count_le z n : 0 < z < 10 ^ n -> digit_count z <= n.
Proof.
  intros [Hz Hn]. destruct (digit_count_spec z Hz) as (H1 & Hlo & _).
  destruct (Z.le_gt_cases (digit_count z) n) as [|Hgt]; [done|].
  assert (0 <= n).
  { destruct (Z.le_gt_cases 0 n); [done|]. rewrite Z.pow_neg_r in Hn; lia. }
  assert (10 ^ n <= 10 ^ (digit_count z - 1)) by (apply Z.pow_le_mono_r; lia).
  lia.
Qed.

Lemma parse_zeros (j : nat) a :
  parse_digits (zeros j) (Some a) = Some (a * 10 ^ Z.of_nat j).
Proof.
  revert a. induction j as [|j IH]; intros a.
  - simpl. f_equal. lia.
  - cbn [zeros parse_digits]. change (digit_of_ascii "0") with (Some 0).
    cbn [default]. rewrite IH. apply f_equal.
    replace (Z.of_nat (S j)) with (Z.succ (Z.of_nat j)) by lia.
    rewrite Z.pow_succ_r by lia. unfold id. ring.
Qed.

Lemma parseInt_digits c r :
  is_white c = false -> Ascii.eqb c "-" = false -> Ascii.eqb c "+" = false ->
  parseInt (String c r) =
    match parse_digits (String c r) None with
    | Some z => to_double z 1
    | None => NaN
    end.
Proof.
  intros W M P. unfold parseInt. cbn [trimStart]. rewrite W, M, P.
  by destruct (parse_digits _ _) as [z|].
Qed.

Lemma parseInt_minus r :
  parseInt (String "-" r) =
    match parse_digits r None with
    | Some z => negate (to_double z 1)
    | None => NaN
    end.
Proof. reflexivity. Qed.

(** The digits of a positive integer followed by zeros read as the
    integer shifted. *)
Lemma parseInt_pretty_zeros (s : Z) (j : nat) :
  0 < s ->
  parseInt (pretty s ++ zeros j) = to_double (s * 10 ^ Z.of_nat j) 1 /\
  parseInt ("-" ++ pretty s ++ zeros j) = negate (to_double (s * 10 ^ Z.of_nat j) 1).
Proof.
  intros Hs. destruct s as [|p|p]; try lia.
  change (pretty (Z.pos p)) with (pretty_N_go (N.pos p) "").
  rewrite pretty_go_app by lia. cbn [String.append].
  change ("" ++ zeros j) with (zeros j).
  destruct (parse_pretty_go (N.pos p)) as [t Ht]; [lia|].
  assert (E : parse_digits (pretty_N_go (N.pos p) (zeros j)) None
              = Some (Z.pos p * 10 ^ Z.of_nat j)).
  { rewrite Ht, parse_zeros. cbn [default]. apply f_equal.
    change (Z.of_N (N.pos p)) with (Z.pos p). lia. }
  split.
  - destruct (pretty_go_head (N.pos p) (zeros j)) as (d & r & Eh); [lia|].
    destruct (pretty_char_plain d) as (W & M & P).
    rewrite Eh, parseInt_digits, <- Eh by done. by rewrite E.
  - change ("-" ++ pretty_N_go (N.pos p) (zeros j))
      with (String "-" (pretty_N_go (N.pos p) (zeros j))).
    by rewrite parseInt_minus, E.
Qed.

(** *** The shortest digits of an integer *)

Lemma number_eqb_refl a : number_eqb a a = true.
Proof.
  destruct a; simpl; try done; rewrite ?Z.eqb_refl, ?Pos.eqb_refl; done.
Qed.

Lemma candidate_sound x p q j s :
  candidate x p q j = Some s ->
  decimal s j = x /\
  (s = fst (shifted p q j) / snd (shifted p q j) \/
   s = fst (shifted p q j) / snd (shifted p q j) + 1).
Proof.
  unfold candidate. destruct (shifted p q j) as [a b]. cbn [fst snd].
  destruct (number_eqb (decimal (a / b) j) x) eqn:E1;
    destruct (number_eqb (decimal (a / b + 1) j) x) eqn:E2; try done;
    try apply number_eqb_eq in E1; try apply number_eqb_eq in E2.
  - destruct (_ || _); intros [= <-]; eauto.
  - intros [= <-]; eauto.
  - intros [= <-]; eauto.
Qed.

Lemma candidate_exact z :
  to_double z 1 = Num z -> exists s, candidate (Num z) z 1 0 = Some s.
Proof.
  intros E. unfold candidate.
  replace (shifted z 1 0) with (z, 1) by reflexivity.
  cbv beta iota zeta. rewrite Z.div_1_r.
  assert (D : decimal z 0 = Num z).
  { unfold decimal. change (0 <=? 0) with true. by rewrite Z.mul_1_r. }
  rewrite D, number_eqb_refl. destruct (number_eqb _ _); eauto.
Qed.

Lemma shortest_integer fuel x p q n k :
  (Z.to_nat (n - k) < fuel)%nat -> k <= n ->
  (exists s, candidate x p q 0 = Some s) ->
  exists s j, shortest fuel x p q n k = Some (s, j) /\ 0 <= j <= n - k /\
              candidate x p q j = Some s.
Proof.
  revert k. induction fuel as [|fuel IH]; intros k Hf Hk Hc; [lia|].
  cbn [shortest]. destruct (candidate x p q (n - k)) as [s|] eqn:C.
  - exists s, (n - k). split; [done|]. split; [lia|done].
  - destruct (decide (k = n)) as [->|Hne].
    { rewrite Z.sub_diag in C. destruct Hc as [s Hs]. congruence. }
    destruct (IH (k + 1)) as (s & j & E & Hj & C'); [lia|lia|done|].
    exists s, j. split; [done|]. split; [lia|done].
Qed.

Lemma strip_zeros_spec fuel s j s' j' :
  0 < s -> strip_zeros fuel s j = (s', j') ->
  0 < s' /\ j <= j' /\ s' * 10 ^ (j' - j) = s.
Proof.
  revert s j. induction fuel as [|fuel IH]; intros s j Hs; simpl.
  - intros [= <- <-]. rewrite Z.sub_diag. lia.
  - destruct (Z.ltb_spec 0 s); [|lia]. cbn [andb].
    destruct (Z.eqb_spec (s mod 10) 0) as [Hm|Hm].
    + intros H'. pose proof (Z.div_mod s 10 ltac:(lia)) as Hdm.
      apply IH in H' as (H1 & H2 & H3); [|lia].
      split; [done|]. split; [lia|].
      replace (j' - j) with (Z.succ (j' - (j + 1))) by lia.
      rewrite Z.pow_succ_r by lia. lia.
    + intros [= <- <-]. rewrite Z.sub_diag. lia.
Qed.

Lemma decimal_text_integer s n :
  0 < s -> digit_count s <= n <= 21 ->
  decimal_text s n = pretty s ++ zeros (Z.to_nat (n - digit_count s)).
Proof.
  intros Hs [H1 H2]. unfold decimal_text.
  destruct (Z.leb_spec (digit_count s) n); [|lia].
  destruct (Z.leb_spec n 21); [|lia]. done.
Qed.

(** The digits of a positive integer double below [10^21]: they stand for
    an integer below [10^21] that reads back as the double. *)
Lemma shortest_digits_integer z :
  0 < z < 10 ^ 21 -> to_double z 1 = Num z ->
  exists s j, 0 < s /\ 0 <= j /\ s * 10 ^ j < 10 ^ 21 /\
    to_double (s * 10 ^ j) 1 = Num z /\
    shortest_digits (Num z) = (s, digit_count s + j).
Proof.
  intros [Hz Hb] E. unfold shortest_digits, ratio.
  rewrite Z.abs_eq by lia.
  assert (Hp : point z 1 = digit_count z).
  { unfold point. destruct (Z.leb_spec 1 z); [|lia]. by rewrite Z.div_1_r. }
  rewrite Hp.
  destruct (digit_count_spec z Hz) as (Hd1 & Hlo & Hhi).
  pose proof (digit_count_le z 21 ltac:(lia)) as Hd21.
  destruct (shortest_integer 800 (Num z) z 1 (digit_count z) 1)
    as (s & j & -> & Hj & C); [lia|lia|by apply candidate_exact|].
  cbn [default from_option]. unfold id. cbv beta iota.
  apply candidate_sound in C as [D Hs].
  unfold shifted in Hs. destruct (Z.leb_spec 0 j); [|lia].
  cbn [fst snd] in Hs. rewrite Z.mul_1_l in Hs.
  unfold decimal in D. destruct (Z.leb_spec 0 j); [|lia].
  assert (Hpj : 0 < 10 ^ j) by (apply Z.pow_pos_nonneg; lia).
  assert (Hsplit : 10 ^ 21 = 10 ^ (21 - j) * 10 ^ j).
  { rewrite <- Z.pow_add_r by lia. f_equal. lia. }
  assert (Hq : z / 10 ^ j < 10 ^ (21 - j)).
  { apply Z.div_lt_upper_bound; lia. }
  pose proof (Z.mul_div_le z (10 ^ j) Hpj) as Hle.
  assert (Hq1 : 1 <= z / 10 ^ j).
  { apply Z.div_le_lower_bound; [lia|].
    assert (10 ^ j <= 10 ^ (digit_count z - 1)) by (apply Z.pow_le_mono_r; lia).
    lia. }
  assert (Hspos : 0 < s) by lia.
  assert (Hsb : s * 10 ^ j < 10 ^ 21).
  { destruct Hs as [->| ->]; [nia|].
    destruct (decide (z / 10 ^ j + 1 = 10 ^ (21 - j))) as [Heq|Hne]; [|nia].
    exfalso. rewrite Heq, <- Hsplit in D. vm_compute in D.
    injection D as D. lia. }
  destruct (strip_zeros (String.length (pretty s)) s j) as [s' j'] eqn:S.
  apply strip_zeros_spec in S as (Hs' & Hj' & Hv); [|done].
  exists s', j'.
  assert (Hval : s' * 10 ^ j' = s * 10 ^ j).
  { rewrite <- Hv. replace j' with ((j' - j) + j) at 1 by lia.
    rewrite Z.pow_add_r by lia. lia. }
  rewrite Hval. repeat split; try done. lia.
Qed.

(** Reading the text of an integer double below [10^21] in magnitude
    gives the double back. *)
Lemma parseInt_number_to_string z :
  Z.abs z < 10 ^ 21 -> to_double (Z.abs z) 1 = Num (Z.abs z) ->
  parseInt (number_to_string (Num z)) = Num z.
Proof.
  intros Hb E. destruct (decide (z = 0)) as [->|Hne]; [done|].
  destruct (shortest_digits_integer (Z.abs z) ltac:(lia) E)
    as (s & j & Hs & Hj & Hsb & D & S).
  destruct (digit_count_spec s Hs) as (Hd1 & Hlo & Hhi).
  assert (Hn : digit_count s + j <= 21).
  { destruct (Z.le_gt_cases (digit_count s + j) 21) as [|Hgt]; [done|].
    assert (10 ^ 21 <= 10 ^ (digit_count s - 1 + j)) by (apply Z.pow_le_mono_r; lia).
    rewrite Z.pow_add_r in * by lia.
    assert (0 < 10 ^ j) by (apply Z.pow_pos_nonneg; lia). nia. }
  assert (T : positive_to_string (Num (Z.abs z)) = pretty s ++ zeros (Z.to_nat j)).
  { unfold positive_to_string. rewrite S, decimal_text_integer by lia.
    do 2 f_equal. lia. }
  destruct (parseInt_pretty_zeros s (Z.to_nat j) Hs) as [P1 P2].
  rewrite Z2Nat.id in P1, P2 by lia.
  unfold number_to_string.
  destruct (Z.eqb_spec z 0); [lia|].
  destruct (Z.ltb_spec z 0).
  - replace (- z) with (Z.abs z) by lia. rewrite T, P2, D.
    cbn [negate]. destruct (Z.abs z) eqn:A; try lia; f_equal; lia.
  - replace (Num z) with (Num (Z.abs z)) by (f_equal; lia).
    rewrite T, P1, D. done.
Qed.

(** Rounding overflows from [2^1024 - 2^970] on: the integers that are
    nearer to [2^1024] than to the largest double, and the one halfway,
    which the tie rule sends up. *)
Lemma to_double_overflow z :
  0 <= z -> to_double z 1 = PosInf <-> overflow_threshold <= z.
Proof.
  intros Hz. unfold overflow_threshold.
  destruct (Z.lt_ge_cases z (2 ^ 53)) as [Hs|Hl].
  { rewrite to_double_small by lia. split; [done|].
    assert (2 ^ 53 < 2 ^ 1024 - 2 ^ 970) by (vm_compute; reflexivity). lia. }
  destruct (to_double_large z Hl) as (He & [Hm1 Hm2] & ->).
  set (e := Z.log2 z - 52) in *.
  pose proof (Z.div_mod z (2 ^ e)) as Hdm.
  assert (Hpe : 0 < 2 ^ e) by (apply Z.pow_pos_nonneg; lia).
  pose proof (Z.mod_pos_bound z (2 ^ e) Hpe) as Hr.
  specialize (Hdm ltac:(lia)).
  set (m := z / 2 ^ e) in *. set (r := z mod 2 ^ e) in *.
  clearbody m r e.
  assert (Hodd : m = 2 ^ 53 - 1 -> Z.odd m = true) by (intros ->; vm_compute; reflexivity).
  set (up := (2 ^ e <? 2 * r) || (2 ^ e =? 2 * r) && Z.odd m).
  assert (Hup : up = true <-> 2 ^ e < 2 * r \/ (2 ^ e = 2 * r /\ Z.odd m = true)).
  { unfold up. rewrite orb_true_iff, andb_true_iff, Z.ltb_lt, Z.eqb_eq. done. }
  assert (Hm' : (if up then m + 1 else m) = m + (if up then 1 else 0))
    by (destruct up; lia).
  rewrite Hm'. clear Hm'.
  destruct (Z.leb_spec (2 ^ 1024) ((m + (if up then 1 else 0)) * 2 ^ e)) as [Ho|Ho];
    (split; [|done || intros Ht; exfalso]); try done; try intros _.
  - (* overflow: the integer is at least the threshold *)
    destruct (Z.le_gt_cases 972 e) as [Hbig|Hsmall].
    + assert (2 ^ 972 <= 2 ^ e) by (apply Z.pow_le_mono_r; lia).
      assert (2 ^ 1024 = 2 ^ 52 * 2 ^ 972) by (vm_compute; reflexivity).
      assert (0 < 2 ^ 970) by done.
      assert (2 ^ 52 * 2 ^ 972 <= m * 2 ^ e) by (apply Z.mul_le_mono_nonneg; lia).
      lia.
    + destruct (Z.le_gt_cases e 970) as [Hlow|Hmid].
      * exfalso.
        assert (2 ^ e <= 2 ^ 970) by (apply Z.pow_le_mono_r; lia).
        assert (2 ^ 53 * 2 ^ 970 < 2 ^ 1024) by (vm_compute; reflexivity).
        assert ((m + (if up then 1 else 0)) * 2 ^ e <= 2 ^ 53 * 2 ^ 970).
        { apply Z.mul_le_mono_nonneg; [destruct up|destruct up| |]; lia. }
        lia.
      * assert (e = 971) as E by lia. rewrite E in *.
        destruct up eqn:U.
        -- destruct Hup as [Hup _]. specialize (Hup eq_refl).
           numeral (2 ^ 971). numeral (2 ^ 1024). numeral (2 ^ 970).
           numeral (2 ^ 53). numeral (2 ^ 52). lia.
        -- exfalso. numeral (2 ^ 971). numeral (2 ^ 1024).
           numeral (2 ^ 53). lia.
  - (* no overflow: the integer is below the threshold *)
    destruct (Z.le_gt_cases 972 e) as [Hbig|Hsmall].
    + assert (2 ^ 972 <= 2 ^ e) by (apply Z.pow_le_mono_r; lia).
      assert (2 ^ 1024 = 2 ^ 52 * 2 ^ 972) by (vm_compute; reflexivity).
      assert (2 ^ 52 * 2 ^ 972 <= m * 2 ^ e) by (apply Z.mul_le_mono_nonneg; lia).
      destruct up; lia.
    + destruct (Z.le_gt_cases e 970) as [Hlow|Hmid].
      * assert (2 ^ e <= 2 ^ 970) by (apply Z.pow_le_mono_r; lia).
        assert (2 ^ 53 * 2 ^ 970 < 2 ^ 1024 - 2 ^ 970) by (vm_compute; reflexivity).
        assert ((m + 1) * 2 ^ e <= 2 ^ 53 * 2 ^ 970).
        { apply Z.mul_le_mono_nonneg; lia. }
        lia.
      * assert (e = 971) as E by lia. rewrite E in *.
        assert (U : up = true).
        { apply Hup.
          assert (m = 2 ^ 53 - 1).
          { numeral (2 ^ 971). numeral (2 ^ 1024). numeral (2 ^ 970).
            numeral (2 ^ 53). numeral (2 ^ 52). lia. }
          rewrite (Hodd ltac:(done)).
          numeral (2 ^ 971). numeral (2 ^ 1024). numeral (2 ^ 970).
          numeral (2 ^ 53). numeral (2 ^ 52). lia. }
        rewrite U in Ho.
        numeral (2 ^ 971). numeral (2 ^ 1024). numeral (2 ^ 970).
        numeral (2 ^ 53). numeral (2 ^ 52). lia.
Qed.

(** *** Reading an integer *)

Lemma parse_digits_nonneg s acc z :
  (forall a, acc = Some a -> 0 <= a) -> parse_digits s acc = Some z -> 0 <= z.
Proof.
  revert acc. induction s as [|c s IH]; intros acc Ha; simpl.
  - intros ->. by apply Ha.
  - unfold digit_of_ascii.
    destruct ((48 <=? nat_of_ascii c)%nat && (nat_of_ascii c <=? 57)%nat) eqn:D.
    + apply IH. intros a [= <-]. apply andb_true_iff in D as [D1 D2].
      apply Nat.leb_le in D1.
      assert (0 <= default 0 acc) by (destruct acc; [by apply Ha|done]). lia.
    + intros ->. by apply Ha.
Qed.

(** The signed digits behind [parseInt] and [leading_integer]. *)
Lemma parseInt_leading_integer s :
  match leading_integer s with
  | Some z =>
      parseInt s = (if z <? 0 then negate (to_double (- z) 1)
                    else if z =? 0 then parseInt s else to_double z 1) /\
      (z = 0 -> parseInt s = Num 0 \/ parseInt s = NegZero)
  | None => parseInt s = NaN
  end.
Proof.
  unfold leading_integer, parseInt.
  assert (H : forall (neg : bool) body,
    match (match parse_digits body None with
           | Some z => Some ((if neg then -1 else 1) * z)
           | None => None
           end) with
    | Some z =>
        let r := match parse_digits body None with
                 | Some z0 =>
                     if (if neg then -1 else 1) <? 0 then negate (to_double z0 1)
                     else to_double z0 1
                 | None => NaN
                 end in
        r = (if z <? 0 then negate (to_double (- z) 1)
             else if z =? 0 then r else to_double z 1) /\
        (z = 0 -> r = Num 0 \/ r = NegZero)
    | None =>
        match parse_digits body None with
        | Some z0 =>
            if (if neg then -1 else 1) <? 0 then negate (to_double z0 1)
            else to_double z0 1
        | None => NaN
        end = NaN
    end).
  { intros neg body. destruct (parse_digits body None) as [z|] eqn:P; [|done].
    apply parse_digits_nonneg in P; [|done]. cbv zeta.
    destruct neg.
    - change (-1 <? 0) with true. cbv iota.
      destruct (Z.ltb_spec (-1 * z) 0).
      + split; [do 2 f_equal; lia|lia].
      + assert (z = 0) as -> by lia. split; [done|]. intros _. by right.
    - change (1 <? 0) with false. cbv iota.
      destruct (Z.ltb_spec (1 * z) 0); [lia|].
      destruct (Z.eqb_spec (1 * z) 0) as [E|E].
      + split; [done|]. intros _. assert (z = 0) as -> by lia. by left.
      + split; [f_equal; lia|lia]. }
  destruct (trimStart s) as [|c r].
  - apply (H false "").
  - destruct (Ascii.eqb c "-"); [apply (H true r)|].
    destruct (Ascii.eqb c "+"); [apply (H false r)|apply (H false (String c r))].
Qed.

Lemma to_double_two z : 0 <= z -> to_double z 1 = Num 2 <-> z = 2.
Proof.
  intros Hz. split; [|by intros ->].
  intros E. destruct (to_double_integer z Hz) as [E'|(z' & E' & _ & _ & Hs)];
    rewrite E in E'; [done|].
  injection E' as <-. symmetry. by apply Hs.
Qed.

Lemma negate_to_double z n : 0 <= z -> 0 < n -> negate (to_double z 1) <> Num n.
Proof.
  intros Hz Hn. destruct (to_double_integer z Hz) as [->|(z' & -> & Hz' & _)];
    [done|].
  destruct z' as [|p|p]; try done; try lia. simpl. intros [= <-]. lia.
Qed.

(** [parseInt] gives 2 exactly on the texts whose leading integer is 2. *)
Lemma parseInt_two s : parseInt s = Num 2 <-> leading_integer s = Some 2.
Proof.
  pose proof (parseInt_leading_integer s) as H.
  destruct (leading_integer s) as [z|]; [|rewrite H; split; done].
  destruct H as [H H0]. revert H.
  destruct (Z.ltb_spec z 0) as [Hl|Hl]; [|destruct (Z.eqb_spec z 0) as [Hz|Hz]];
    intros H.
  - rewrite H. split; [|intros [= E]; lia].
    intros E. by apply negate_to_double in E; [|lia|].
  - split; [|intros [= E]; lia].
    intros E. destruct (H0 Hz) as [E'|E']; congruence.
  - rewrite H, to_double_two by lia. split; [by intros ->|by intros [= ->]].
Qed.

(** [parseInt] gives a non-negative integer double, an infinity, a
    negative integer, negative zero or [NaN]; never a fraction. *)
Lemma parseInt_cases s :
  parseInt s = NaN \/ parseInt s = NegZero \/ parseInt s = PosInf \/
  parseInt s = NegInf \/
  exists z, parseInt s = Num z /\ to_double (Z.abs z) 1 = Num (Z.abs z).
Proof.
  pose proof (parseInt_leading_integer s) as H.
  destruct (leading_integer s) as [z|]; [|by left].
  destruct H as [H H0]. right. revert H.
  destruct (Z.ltb_spec z 0) as [Hl|Hl]; [|destruct (Z.eqb_spec z 0) as [Hz|Hz]];
    intros H.
  - destruct (to_double_integer (- z) ltac:(lia)) as [E|(z' & E & Hz' & Hz0 & _)];
      rewrite H, E.
    + right. right. by left.
    + right. right. right. exists (- z').
      assert (z' <> 0) by (rewrite Hz0; lia).
      split; [by destruct z'|].
      rewrite Z.abs_opp, Z.abs_eq by lia.
      apply (to_double_idem (- z)); [lia|done].
  - destruct (H0 Hz) as [E|E]; rewrite E; [|by left].
    right. right. right. by exists 0.
  - destruct (to_double_integer z ltac:(lia)) as [E|(z' & E & Hz' & _)];
      rewrite H, E.
    + right. by left.
    + right. right. right. exists z'. split; [done|].
      rewrite Z.abs_eq by done. apply (to_double_idem z); [lia|done].
Qed.

(** What passes the guard [Number.isNaN(n) || n < 0] of the migration and
    of the settings tab. *)
Lemma parseInt_stored s :
  isNaN (parseInt s) || lt0 (parseInt s) = false -> stored_limit (parseInt s).
Proof.
  destruct (parseInt_cases s) as [->|[->|[->|[->|(z & -> & E)]]]]; try done.
  simpl. rewrite ?orb_false_l. intros H. apply Z.ltb_ge in H.
  rewrite Z.abs_eq in E by done. done.
Qed.

(** *** Slot normalization *)

Lemma slot_number_text slot :
  parseInt (number_to_string (slot_number slot)) = slot_number slot.
Proof. destruct slot; vm_compute; reflexivity. Qed.

Lemma normalize_slot_number slot :
  normalizeProviderSlot (VNumber (slot_number slot)) = Some slot.
Proof.
  unfold normalizeProviderSlot. cbn [nullish to_String mbind option_bind].
  rewrite slot_number_text. by destruct slot.
Qed.

(** On a number the normalization is that of the number. *)
Lemma normalizeProviderSlot_on_number n :
  normalizeProviderSlot (VNumber n) = Some (normalizeProviderSlot_number n).
Proof. reflexivity. Qed.

Lemma normalizeProviderSlot_text v text :
  to_String (nullish v (VString "")) = Some text ->
  normalizeProviderSlot v =
    Some (if decide (leading_integer text = Some 2) then slot2 else slot1).
Proof.
  intros E. unfold normalizeProviderSlot. rewrite E.
  cbn [mbind option_bind]. f_equal.
  pose proof (parseInt_two text) as H.
  destruct (decide (leading_integer text = Some 2)) as [L|L].
  - apply H in L. by rewrite L.
  - destruct (parseInt text) as [z| | | | |]; try done.
    destruct (decide (z = 2)) as [->|Hz]; [by destruct L; apply H|].
    destruct z as [|q|q]; try done. by repeat (destruct q as [q|q|]; try done).
Qed.

(** On a text that is an integer and nothing else, the leading integer
    is that integer. *)
Lemma leading_integer_of_text s z :
  integer_of_text s = Some z -> leading_integer s = Some z.
Proof.
  unfold integer_of_text, leading_integer.
  destruct (trimStart s) as [|c r]; [done|].
  repeat case_match; congruence.
Qed.

Lemma is_double_integer z :
  is_double (Num z) = true -> to_double (Z.abs z) 1 = Num (Z.abs z).
Proof. apply number_eqb_eq. Qed.

Lemma integer_value_slot v z :
  integer_value v = Some z ->
  normalizeProviderSlot v = Some (if decide (z = 2) then slot2 else slot1).
Proof.
  destruct v as [| | |[z'| | | | |]|s| |]; try done; cbn [integer_value].
  - destruct (is_double (Num z')) eqn:D; [|done].
    destruct (Z.ltb_spec (Z.abs z') (10 ^ 21)); [|done]. intros [= <-].
    unfold normalizeProviderSlot. cbn [nullish to_String mbind option_bind].
    rewrite parseInt_number_to_string by (done || by apply is_double_integer).
    f_equal. destruct (decide (z' = 2)) as [->|Hz]; [done|].
    destruct z' as [|q|q]; try done. by repeat (destruct q as [q|q|]; try done).
  - by intros [= <-].
  - intros H. apply leading_integer_of_text in H.
    rewrite (normalizeProviderSlot_text (VString s) s eq_refl), H.
    destruct (decide (z = 2)) as [->|Hz]; [done|].
    by destruct (decide (Some z = Some 2)) as [[= ->]|].
Qed.

(** C5, as stated, fails: the text ["2abc"] is malformed as an integer (it
    has no integer value), yet slot normalization returns 2 for it, because
    [parseInt] stops reading at the first character that is not a digit. *)
Lemma normalizeProviderSlot_malformed_counterexample :
  integer_value (VString "2abc") = None /\
  normalizeProviderSlot (VString "2abc") = Some slot2.
Proof. split; vm_compute; reflexivity. Qed.

(** C5, amended: on a value that [String] converts, slot normalization
    returns 2 exactly when the integer at the start of the value's text
    (after leading white space an optional sign, then the longest run of
    digits) is 2, and 1 in every other case; on a value that [String]
    does not convert it raises.  On the inputs that are integers and
    nothing else (a number that is an integer below [10^21] in magnitude,
    or a text made of an optional sign and digits) this is: 2 for the
    integer 2 and 1 for every other integer; absent inputs give 1. *)
Theorem normalizeProviderSlot_reads_leading_integer (v : value) :
  (forall text, to_String (nullish v (VString "")) = Some text ->
     (leading_integer text = Some 2 /\ normalizeProviderSlot v = Some slot2) \/
     (leading_integer text <> Some 2 /\ normalizeProviderSlot v = Some slot1)) /\
  (to_String (nullish v (VString "")) = None -> normalizeProviderSlot v = None) /\
  (forall z, integer_value v = Some z ->
     (z = 2 /\ normalizeProviderSlot v = Some slot2) \/
     (z <> 2 /\ normalizeProviderSlot v = Some slot1)) /\
  (nullish v (VString "") = VString "" -> normalizeProviderSlot v = Some slot1).
Proof.
  split; [|split; [|split]].
  - intros text E. rewrite (normalizeProviderSlot_text _ _ E).
    destruct (decide (leading_integer text = Some 2)); [by left|by right].
  - intros E. unfold normalizeProviderSlot. by rewrite E.
  - intros z Hz. rewrite (integer_value_slot _ _ Hz).
    destruct (decide (z = 2)); [by left|by right].
  - intros E. unfold normalizeProviderSlot. by rewrite E.
Qed.

Lemma normalizeProviderSlot_reads_leading_integer_witness :
  integer_value (VString "2") = Some 2 /\
  normalizeProviderSlot (VString "2") = Some slot2 /\
  normalizeProviderSlot (VString " 2.9") = Some slot2 /\
  normalizeProviderSlot VUndefined = Some slot1.
Proof.
  destruct (normalizeProviderSlot_reads_leading_integer (VString "2"))
    as (_ & _ & H & _).
  destruct (normalizeProviderSlot_reads_leading_integer (VString " 2.9"))
    as (H2 & _).
  destruct (normalizeProviderSlot_reads_leading_integer VUndefined)
    as (_ & _ & _ & H').
  split; [reflexivity|split; [|split]].
  - destruct (H 2 eq_refl) as [[_ E]|[N _]]; [exact E|].
    exfalso. apply N. reflexivity.
  - destruct (H2 " 2.9" eq_refl) as [[_ E]|[N _]]; [exact E|].
    exfalso. apply N. reflexivity.
  - apply H'. reflexivity.
Defined.

(** The examples of the specification, and numbers whose text begins
    with the digit 2: a fraction, and an integer that is written in
    exponent notation. *)
Example normalizeProviderSlot_examples :
  normalizeProviderSlot (VNumber (Num 2)) = Some slot2 /\
  normalizeProviderSlot (VString "2") = Some slot2 /\
  normalizeProviderSlot (VNumber (Num 3)) = Some slot1 /\
  normalizeProviderSlot (VNumber (Num 0)) = Some slot1 /\
  normalizeProviderSlot (VString "two") = Some slot1 /\
  normalizeProviderSlot VUndefined = Some slot1 /\
  to_String (VNumber (decimal 29 (-1))) = Some "2.9" /\
  normalizeProviderSlot (VNumber (decimal 29 (-1))) = Some slot2 /\
  to_String (VNumber (decimal 2 21)) = Some "2e+21" /\
  normalizeProviderSlot (VNumber (decimal 2 21)) = Some slot2 /\
  normalizeProviderSlot (VObject {[ "toString" := VString "2" ]}) = None.
Proof. repeat split; vm_compute; reflexivity. Qed.

(** *** Base URL of the Anthropic assistant *)

Lemma normalizeBaseUrl_blank baseUrl :
  blank baseUrl = true -> normalizeBaseUrl baseUrl = DEFAULT_API_BASE_URL.
Proof.
  unfold blank, normalizeBaseUrl. destruct (trim baseUrl); [done|discriminate].
Qed.

Lemma is_white_lower c : is_white (lower_ascii c) = is_white c.
Proof. destruct c as [[] [] [] [] [] [] [] []]; vm_compute; reflexivity. Qed.

Lemma count_black_lower s : count_black (lower s) = count_black s.
Proof.
  induction s as [|c s IH]; [done|]. simpl. by rewrite is_white_lower, IH.
Qed.

Lemma count_black_app a b :
  count_black (a ++ b) = (count_black a + count_black b)%nat.
Proof.
  induction a as [|c a IH]; [done|]. rewrite append_cons. simpl. rewrite IH. lia.
Qed.

Lemma count_black_trimStart s : count_black (trimStart s) = count_black s.
Proof.
  induction s as [|c s IH]; [done|]. cbn [trimStart count_black].
  destruct (is_white c) eqn:W; [done|]. cbn [count_black]. by rewrite W.
Qed.

Lemma count_black_trimEnd s : count_black (trimEnd s) = count_black s.
Proof.
  induction s as [|c s IH]; [done|]. cbn [trimEnd count_black]. rewrite <- IH.
  destruct (trimEnd s) as [|c' r].
  - destruct (is_white c) eqn:W; cbn [count_black]; by rewrite ?W.
  - cbn [count_black]. done.
Qed.

Lemma count_black_trim s : count_black (trim s) = count_black s.
Proof. unfold trim. by rewrite count_black_trimEnd, count_black_trimStart. Qed.

(** A text that contains the Anthropic domain has its thirteen
    characters, none of them white space. *)
Lemma anthropic_count_black s :
  includes_ci "anthropic.com" s = true -> (13 <= count_black s)%nat.
Proof.
  unfold includes_ci. intros H. apply includes_spec in H as (a & b & E).
  rewrite <- count_black_lower, E, !count_black_app.
  change (count_black (lower "anthropic.com")) with 13%nat. lia.
Qed.

Lemma strip_trailing_slash_empty s :
  strip_trailing_slash s = "" <-> s = "" \/ s = "/".
Proof.
  destruct s as [|c s]; [by split; [left|]|]. simpl.
  destruct s as [|c' s]; simpl.
  - destruct (Ascii.eqb_spec c "/") as [->|Hne]; split; try done; auto.
    intros [|[= ?]]; done.
  - split; [done|]. by intros [|].
Qed.

(** Normalization gives the empty text on a lone slash and on nothing
    else. *)
Lemma normalizeBaseUrl_empty baseUrl :
  normalizeBaseUrl baseUrl = "" <-> trim baseUrl = "/".
Proof.
  unfold normalizeBaseUrl. rewrite strip_trailing_slash_empty.
  destruct (trim baseUrl) as [|c r]; simpl; [|by split; [intros [|]|right]].
  split; [by intros [|]|done].
Qed.

(** A base URL that contains the Anthropic domain is not blank, and its
    normalization is not empty. *)
Lemma anthropic_url_normalized baseUrl :
  includes_ci "anthropic.com" baseUrl = true ->
  blank baseUrl = false /\ normalizeBaseUrl baseUrl <> "".
Proof.
  intros H. apply anthropic_count_black in H. rewrite <- count_black_trim in H.
  split.
  - unfold blank. destruct (trim baseUrl); [simpl in H; lia|done].
  - rewrite normalizeBaseUrl_empty. intros E. rewrite E in H. simpl in H. lia.
Qed.

(** C8, as stated, fails: constructed with an empty or a whitespace-only
    base URL, the Anthropic assistant has the OpenAI-compatible default as
    its base URL, not the Anthropic API root. *)
Lemma anthropic_blank_base_url_counterexample :
  blank "" = true /\ blank "   " = true /\
  AnthropicAssistant.baseUrl
    (AnthropicAssistant.constructor "key" "" "claude-3-haiku" (Num 0))
  = "https://api.openai.com/v1" /\
  AnthropicAssistant.baseUrl
    (AnthropicAssistant.constructor "key" "   " "claude-3-haiku" (Num 0))
  <> "https://api.anthropic.com/v1".
Proof. repeat split; try reflexivity. vm_compute. discriminate. Qed.

(** C8, amended: an Anthropic assistant constructed with a base URL whose
    normalization is the empty text has the Anthropic API root as its base
    URL; the normalization is empty exactly for a base URL that is a lone
    slash once trimmed.  The factory constructs an Anthropic assistant
    only from a base URL that is not blank, and the assistant's base URL is
    then that URL normalized, which is not empty. *)
Theorem anthropic_base_url_fallback (s : AiAssistantSettings)
    (apiKey baseUrl modelName : string) (maxTokens : number) :
  (normalizeBaseUrl baseUrl = "" ->
     AnthropicAssistant.baseUrl
       (AnthropicAssistant.constructor apiKey baseUrl modelName maxTokens)
     = "https://api.anthropic.com/v1") /\
  (normalizeBaseUrl baseUrl = "" <-> trim baseUrl = "/") /\
  (forall a, createAssistant s apiKey baseUrl = Anthropic a ->
     blank baseUrl = false /\
     AnthropicAssistant.baseUrl a = normalizeBaseUrl baseUrl /\
     AnthropicAssistant.baseUrl a <> "").
Proof.
  split; [|split; [apply normalizeBaseUrl_empty|]].
  - intros E. unfold AnthropicAssistant.constructor.
    cbn [AnthropicAssistant.baseUrl]. by rewrite E.
  - intros a. unfold createAssistant.
    destruct (includes_ci "anthropic.com" (or_else baseUrl DEFAULT_API_BASE_URL))
      eqn:I; [|done].
    assert (or_else baseUrl DEFAULT_API_BASE_URL = baseUrl) as E.
    { unfold or_else in *. by destruct (is_empty baseUrl). }
    rewrite E in *. intros [= <-].
    destruct (anthropic_url_normalized _ I) as [B N]. split; [done|].
    unfold AnthropicAssistant.constructor. cbn [AnthropicAssistant.baseUrl].
    unfold or_else. by destruct (normalizeBaseUrl baseUrl).
Qed.

Lemma anthropic_base_url_fallback_witness :
  AnthropicAssistant.baseUrl
    (AnthropicAssistant.constructor "key" " / " "claude-3-haiku" (Num 0))
  = "https://api.anthropic.com/v1" /\
  AnthropicAssistant.baseUrl
    (AnthropicAssistant.constructor "key" "https://api.anthropic.com/v1/"
       DEFAULT_TEXT_MODEL (Num 0))
  = "https://api.anthropic.com/v1".
Proof.
  split.
  - apply (anthropic_base_url_fallback DEFAULT_SETTINGS "key" " / "
             "claude-3-haiku" (Num 0)).
    reflexivity.
  - destruct (anthropic_base_url_fallback DEFAULT_SETTINGS "key"
                "https://api.anthropic.com/v1/" "" (Num 0)) as (_ & _ & H).
    destruct (H (AnthropicAssistant.constructor "key"
                   "https://api.anthropic.com/v1/" DEFAULT_TEXT_MODEL (Num 0))
                eq_refl)
      as (_ & E & _).
    rewrite E. reflexivity.
Defined.

(** *** Token limit of zero *)

Lemma includeMaxTokens_zero (this : OpenAIAssistant.t) :
  OpenAIAssistant.maxTokens this = Num 0 ->
  OpenAIAssistant.includeMaxTokens this = false.
Proof. unfold OpenAIAssistant.includeMaxTokens. by intros ->. Qed.

Lemma build_params_omitted (this : OpenAIAssistant.t) prompt_list htmlEl omit :
  OpenAIAssistant.includeMaxTokens this && negb omit = false ->
  carries_limit (OpenAIAssistant.build_params this prompt_list htmlEl omit)
  = false.
Proof.
  intros H. unfold OpenAIAssistant.build_params. rewrite H. reflexivity.
Qed.

(** C3 at the failing input: with [maxTokens] equal to 0 the
    OpenAI-compatible assistant puts no token-limit parameter in a request
    object, on the first attempt or on a retry, but the Anthropic
    assistant's request body still has [max_tokens], with the value 0. *)
Theorem zero_limit_sent_by_anthropic_only
    (openai : OpenAIAssistant.t) (anthropic : AnthropicAssistant.t)
    (prompt_list : list value) (htmlEl : option element) (omitMaxTokens : bool) :
  OpenAIAssistant.maxTokens openai = Num 0 ->
  AnthropicAssistant.maxTokens anthropic = Num 0 ->
  let params :=
    OpenAIAssistant.build_params openai prompt_list htmlEl omitMaxTokens in
  let body :=
    AnthropicAssistant.body (AnthropicAssistant.build_request anthropic prompt_list) in
  params !! "max_tokens" = None /\
  params !! "max_completion_tokens" = None /\
  body !! "max_tokens" = Some (VNumber (Num 0)).
Proof.
  intros Ho Ha params body. subst params body.
  unfold OpenAIAssistant.build_params, AnthropicAssistant.build_request.
  rewrite (includeMaxTokens_zero _ Ho). cbn [andb AnthropicAssistant.body].
  rewrite Ha. repeat split; reflexivity.
Qed.

Lemma zero_limit_sent_by_anthropic_only_witness :
  AnthropicAssistant.body
    (AnthropicAssistant.build_request
       (AnthropicAssistant.constructor "key" "https://api.anthropic.com/v1" ""
          (Num 0)) [])
  !! "max_tokens" = Some (VNumber (Num 0)).
Proof.
  apply (zero_limit_sent_by_anthropic_only
           (OpenAIAssistant.constructor "key" "" "" (Num 0) "")
           (AnthropicAssistant.constructor "key" "https://api.anthropic.com/v1" ""
              (Num 0))
           [] None false); reflexivity.
Defined.

(** *** The OpenAI-compatible text call: requests, retries, notices *)

Section openai_text_call.

Variable this : OpenAIAssistant.t.
Variable backend : nat -> gmap string value -> reply.
Variable prompt_list : list value.
Variable htmlEl : option element.

Local Abbreviation build_params :=
  (OpenAIAssistant.build_params this prompt_list htmlEl).
Local Abbreviation sendRequest :=
  (OpenAIAssistant.sendRequest this backend prompt_list htmlEl).
Local Abbreviation attempts :=
  (OpenAIAssistant.attempts this backend prompt_list htmlEl).
Local Abbreviation text_api_call :=
  (OpenAIAssistant.text_api_call this backend prompt_list htmlEl).
Local Abbreviation consume := OpenAIAssistant.consume.
Local Abbreviation shouldRetry := OpenAIAssistant.shouldRetryWithoutMaxTokens.
Local Abbreviation display_error := OpenAIAssistant.display_error.

Lemma display_error_show err w : display_error err w = show (error_notice err) w.
Proof. by destruct err. Qed.

Lemma consume_frame el cs rt w w' r :
  consume el cs rt w = (w', r) -> sent w' = sent w /\ notices w' = notices w.
Proof.
  revert rt w. induction cs as [|c cs IH]; intros rt w; simpl.
  - by intros [= <- _].
  - destruct (OpenAIAssistant.chunk_content c) as [err|content].
    + by intros [= <- _].
    + destruct (truthy content); [destruct (to_String content)|];
        try (by intros [= <- _]); intros H; apply IH in H; exact H.
Qed.

(** One round sends exactly one request and shows no notice. *)
Lemma sendRequest_frame omit w w' r :
  sendRequest omit w = (w', r) ->
  sent w' = (sent w ++ [build_params omit])%list /\ notices w' = notices w.
Proof.
  unfold OpenAIAssistant.sendRequest.
  set (w1 := match htmlEl with Some el => set_innerHTML el "" w | None => w end).
  assert (Hs : sent w1 = sent w) by (subst w1; by destruct htmlEl).
  assert (Hn : notices w1 = notices w) by (subst w1; by destruct htmlEl).
  destruct (backend _ _) as [err|resp].
  - intros [= <- _]. simpl. by rewrite Hs, Hn.
  - destruct htmlEl as [el|].
    + destruct (consume _ _ _ _) as [w3 [err|]] eqn:C;
        apply consume_frame in C as [Cs Cn]; simpl in Cs, Cn.
      * intros [= <- _]. by rewrite Cs, Cn.
      * destruct (fault resp); intros [= <- _]; by rewrite Cs, Cn.
    + destruct (Api.body resp); by intros [= <- _].
Qed.

Lemma attempts_success fuel omit w w1 v :
  sendRequest omit w = (w1, inr v) -> attempts (S fuel) omit w = Some (w1, v).
Proof. intros H. simpl. by rewrite H. Qed.

Lemma attempts_give_up fuel omit w w1 err :
  sendRequest omit w = (w1, inl err) ->
  negb omit && shouldRetry err = false ->
  attempts (S fuel) omit w = Some (display_error err w1, VUndefined).
Proof. intros H C. simpl. by rewrite H, C. Qed.

Lemma attempts_retry fuel w w1 err :
  sendRequest false w = (w1, inl err) ->
  shouldRetry err = true ->
  attempts (S fuel) false w = attempts fuel true w1.
Proof. intros H C. simpl. by rewrite H, C. Qed.

(** A round that already omits the parameter is the last one. *)
Lemma attempts_omitting fuel w :
  attempts (S fuel) true w =
    match sendRequest true w with
    | (w', inr v) => Some (w', v)
    | (w', inl err) => Some (display_error err w', VUndefined)
    end.
Proof. simpl. by destruct (sendRequest true w) as [w' [err|v]]. Qed.

(** Two rounds are always enough, and more change nothing. *)
Lemma attempts_terminate fuel omit w :
  (2 <= fuel)%nat ->
  exists w' v, attempts fuel omit w = Some (w', v) /\
               attempts 2 omit w = Some (w', v).
Proof.
  intros Hf. destruct fuel as [|[|fuel]]; [lia|lia|].
  destruct (sendRequest omit w) as [w1 [err|v]] eqn:E1.
  - destruct (negb omit && shouldRetry err) eqn:C.
    + apply andb_true_iff in C as [Ho C]. destruct omit; [done|].
      rewrite !(attempts_retry _ _ _ _ E1 C), !attempts_omitting.
      destruct (sendRequest true w1) as [w2 [err2|v2]]; eauto.
    + rewrite !(attempts_give_up _ _ _ _ _ E1 C). eauto.
  - rewrite !(attempts_success _ _ _ _ _ E1). eauto.
Qed.

(** A call that returns a text ended with a round that succeeded. *)
Lemma attempts_text_inv fuel omit w w' txt :
  attempts fuel omit w = Some (w', VString txt) ->
  exists omit' w0, sendRequest omit' w0 = (w', inr (VString txt)).
Proof.
  revert omit w. induction fuel as [|fuel IH]; intros omit w; simpl; [done|].
  destruct (sendRequest omit w) as [w1 [err|v]] eqn:E1.
  - destruct (negb omit && shouldRetry err); [apply IH|done].
  - intros [= <- <-]. eauto.
Qed.

End openai_text_call.

(** *** Retry policy *)

Lemma names_token_limit_parts err :
  existsb names_token_limit (error_texts err) = true ->
  existsb names_token_limit (OpenAIAssistant.error_parts err) = true.
Proof.
  destruct err as [message [code|] [error|]|message|s|]; simpl; try done;
    destruct message as [|c m]; try destruct code as [|c' code];
    simpl; try done;
    change (names_token_limit "") with false; cbn [orb]; done.
Qed.

Lemma names_token_limit_join parts :
  existsb names_token_limit parts = true ->
  test_any_ci OpenAIAssistant.max_tokens_pattern (join " " parts) = true.
Proof.
  intros H. apply existsb_exists in H as (t & Hin & Ht).
  unfold names_token_limit in Ht. apply orb_true_iff in Ht.
  unfold test_any_ci, OpenAIAssistant.max_tokens_pattern. cbn [existsb].
  destruct Ht as [Ht|Ht].
  - rewrite (includes_ci_join "max_tokens" " " parts).
    + by rewrite !orb_true_r.
    + apply existsb_exists. eauto.
  - rewrite (includes_ci_join "max_completion_tokens" " " parts).
    + by rewrite !orb_true_r.
    + apply existsb_exists. eauto.
Qed.

(** An error whose message, code or body names [max_tokens] or
    [max_completion_tokens], in any letter case, asks for the retry. *)
Lemma mentions_token_limit_retry err :
  mentions_token_limit err = true ->
  OpenAIAssistant.shouldRetryWithoutMaxTokens err = true.
Proof.
  intros H. apply names_token_limit_join, names_token_limit_parts, H.
Qed.

Section retry_policy.

Variable this : OpenAIAssistant.t.
Variable backend : nat -> gmap string value -> reply.
Variable prompt_list : list value.
Variable htmlEl : option element.

Local Abbreviation build_params :=
  (OpenAIAssistant.build_params this prompt_list htmlEl).
Local Abbreviation sendRequest :=
  (OpenAIAssistant.sendRequest this backend prompt_list htmlEl).
Local Abbreviation text_api_call :=
  (OpenAIAssistant.text_api_call this backend prompt_list htmlEl).
Local Abbreviation shouldRetry := OpenAIAssistant.shouldRetryWithoutMaxTokens.


(** Against a backend that rejects exactly the requests carrying a
    token-limit parameter, naming the parameter in the error, a
    non-streamed call succeeds on its second request. *)
Lemma rejecting_backend_second_attempt
    (fuel : nat) (w : world) (reject : thrown) (resp : response) :
  htmlEl = None ->
  OpenAIAssistant.includeMaxTokens this = true ->
  (2 <= fuel)%nat ->
  mentions_token_limit reject = true ->
  (forall n p, backend n p =
                 if carries_limit p then Rejected reject else Resolved resp) ->
  truthy (Api.body resp) = true ->
  exists v,
    text_api_call fuel w =
      Some (send (build_params true) (send (build_params false) w), v) /\
    carries_limit (build_params false) = true /\
    carries_limit (build_params true) = false.
Proof.
  intros Hs Hi Hf Hm Hb Ht.
  assert (C1 : carries_limit (build_params false) = true).
  { unfold OpenAIAssistant.build_params. rewrite Hi. cbn [andb negb].
    by destruct (OpenAIAssistant.is_reasonning_model _ _). }
  assert (C2 : carries_limit (build_params true) = false).
  { apply build_params_omitted. by rewrite andb_false_r. }
  destruct fuel as [|[|fuel]]; [lia|lia|].
  unfold OpenAIAssistant.text_api_call. rewrite Hi. cbn [negb].
  assert (E1 : sendRequest false w = (send (build_params false) w, inl reject)).
  { unfold OpenAIAssistant.sendRequest. rewrite Hb, C1. by rewrite Hs. }
  assert (E2 : forall w', exists v, sendRequest true w' = (send (build_params true) w', inr v)).
  { intros w'. unfold OpenAIAssistant.sendRequest. rewrite Hb, C2.
    destruct (Api.body resp) eqn:B; try done; rewrite Hs; eauto. }
  rewrite (attempts_retry _ _ _ _ _ _ _ _ E1 (mentions_token_limit_retry _ Hm)).
  rewrite attempts_omitting.
  destruct (E2 (send (build_params false) w)) as [v ->]. eauto.
Qed.

End retry_policy.



(** The property of the specification: [maxTokens = 500], a backend that
    rejects requests containing the parameter with a message containing
    ["max_tokens"]: the call succeeds on exactly the second request, which
    omits the parameter. *)
Example token_limit_retry_example :
  (fun r => (notices (fst r), List.map carries_limit (sent (fst r)), snd r))
    <$> OpenAIAssistant.text_api_call limited_assistant
          (rejecting_backend unsupported_parameter_error) [] None 2 empty_world
  = Some ([], [true; false], VString "Hi").
Proof. vm_compute. reflexivity. Qed.

(** *** Token-limit parameter: inclusion and name *)

(** The pattern matches the identifiers that contain [o1], [o2] or [o4]
    somewhere. *)
Lemma is_reasonning_model_spec this prompt_list :
  OpenAIAssistant.is_reasonning_model this prompt_list = true <->
  exists a d b, (d = "1" \/ d = "2" \/ d = "4") /\
    OpenAIAssistant.model this prompt_list = a ++ "o" ++ d ++ b.
Proof.
  unfold OpenAIAssistant.is_reasonning_model, test_any,
    OpenAIAssistant.reasoning_pattern. cbn [existsb].
  rewrite orb_false_r, !orb_true_iff, !includes_spec. split.
  - intros [(a & b & ->)|[(a & b & ->)|(a & b & ->)]].
    + exists a, "1", b. eauto.
    + exists a, "2", b. eauto.
    + exists a, "4", b. eauto.
  - intros (a & d & b & [->|[->| ->]] & ->); eauto 6.
Qed.

(** An identifier that begins with [o1], [o2] or [o4] matches. *)
Lemma reasoning_prefix_matches this prompt_list :
  reasoning_prefix (OpenAIAssistant.model this prompt_list) = true ->
  OpenAIAssistant.is_reasonning_model this prompt_list = true.
Proof.
  unfold reasoning_prefix. rewrite !orb_true_iff, !starts_with_spec.
  intros H. apply is_reasonning_model_spec.
  destruct H as [[[b ->]|[b ->]]|[b ->]].
  - exists "", "1", b. eauto.
  - exists "", "2", b. eauto.
  - exists "", "4", b. eauto.
Qed.

(** C6, as stated, fails: ["solar-pro2"] does not begin with [o1], [o2] or
    [o4], so by the claim its limit goes out as [max_tokens]; the request
    names it [max_completion_tokens], because the identifier contains
    [o2]. *)
Lemma reasoning_prefix_counterexample :
  let this := OpenAIAssistant.constructor "key" "" "solar-pro2" (Num 500) "" in
  let params := OpenAIAssistant.build_params this [] None false in
  reasoning_prefix "solar-pro2" = false /\
  params !! "model" = Some (VString "solar-pro2") /\
  params !! "max_completion_tokens" = Some (VNumber (Num 500)) /\
  params !! "max_tokens" = None.
Proof. repeat split; vm_compute; reflexivity. Qed.

(** C6, amended: the first request of a text call carries a token-limit
    parameter if and only if the configured limit is finite and greater
    than 0; the parameter then holds the configured limit and is named
    [max_completion_tokens] when the identifier of the model sent contains
    [o1], [o2] or [o4] anywhere, and [max_tokens] for every other
    identifier. *)
Theorem token_limit_parameter
    (this : OpenAIAssistant.t) (prompt_list : list value)
    (htmlEl : option element) :
  let limit := OpenAIAssistant.maxTokens this in
  let model := OpenAIAssistant.model this prompt_list in
  let params :=
    OpenAIAssistant.build_params this prompt_list htmlEl
      (negb (OpenAIAssistant.includeMaxTokens this)) in
  params !! "model" = Some (VString model) /\
  carries_limit params = isFinite limit && gt0 limit /\
  (isFinite limit && gt0 limit = true ->
     if includes "o1" model || includes "o2" model || includes "o4" model
     then params !! "max_completion_tokens" = Some (VNumber limit) /\
          params !! "max_tokens" = None
     else params !! "max_tokens" = Some (VNumber limit) /\
          params !! "max_completion_tokens" = None).
Proof.
  intros limit model params. subst limit model params.
  unfold OpenAIAssistant.build_params, OpenAIAssistant.includeMaxTokens,
    OpenAIAssistant.is_reasonning_model, test_any,
    OpenAIAssistant.reasoning_pattern.
  cbn [existsb]. rewrite orb_false_r.
  destruct (isFinite _ && gt0 _); cbn [negb andb].
  - destruct (includes "o1" _ || (includes "o2" _ || includes "o4" _)) eqn:E;
      rewrite <- orb_assoc, E; repeat split; reflexivity.
  - repeat split; try reflexivity. discriminate.
Qed.

Lemma token_limit_parameter_witness :
  OpenAIAssistant.build_params
    (OpenAIAssistant.constructor "key" "" "o1-mini" (Num 500) "") [] None false
  !! "max_completion_tokens" = Some (VNumber (Num 500)).
Proof.
  pose proof
    (token_limit_parameter
       (OpenAIAssistant.constructor "key" "" "o1-mini" (Num 500) "") [] None)
    as (_ & _ & H).
  exact (proj1 (H eq_refl)).
Defined.

(** The request built with the initial flag is the first one a call
    sends. *)
Lemma first_request_sent this backend prompt_list htmlEl fuel w w' v :
  OpenAIAssistant.text_api_call this backend prompt_list htmlEl fuel w
  = Some (w', v) ->
  exists rest,
    sent w' =
      (sent w ++
       OpenAIAssistant.build_params this prompt_list htmlEl
         (negb (OpenAIAssistant.includeMaxTokens this)) :: rest)%list.
Proof.
  unfold OpenAIAssistant.text_api_call.
  generalize (negb (OpenAIAssistant.includeMaxTokens this)). intros omit.
  destruct fuel as [|fuel]; [done|]. simpl.
  destruct (OpenAIAssistant.sendRequest _ _ _ _ omit w) as [w1 [err|v1]] eqn:E1;
    destruct (sendRequest_frame _ _ _ _ _ _ _ _ E1) as [S1 _].
  - destruct (negb omit && _) eqn:C.
    + destruct fuel as [|fuel]; [done|]. rewrite attempts_omitting.
      destruct (OpenAIAssistant.sendRequest _ _ _ _ true w1) as [w2 [err2|v2]] eqn:E2;
        destruct (sendRequest_frame _ _ _ _ _ _ _ _ E2) as [S2 _];
        intros [= <- _]; rewrite ?display_error_show; simpl;
        rewrite S2, S1, <- app_assoc; eauto.
    + intros [= <- _]. rewrite display_error_show. simpl. rewrite S1. by exists [].
  - intros [= <- _]. rewrite S1. by exists [].
Qed.

(** *** Streaming *)

Lemma concat_fragments_cons c cs :
  concat_fragments (c :: cs) = fragment c ++ concat_fragments cs.
Proof. reflexivity. Qed.

(** Consuming a stream in two parts: the second part starts from the
    accumulator the first part built. *)
Lemma consume_app el cs1 cs2 rt w :
  OpenAIAssistant.consume el (cs1 ++ cs2) rt w =
    match OpenAIAssistant.consume el cs1 rt w with
    | (w1, None) => OpenAIAssistant.consume el cs2 (rt ++ concat_fragments cs1) w1
    | (w1, Some err) => (w1, Some err)
    end.
Proof.
  revert rt w. induction cs1 as [|c cs1 IH]; intros rt w.
  - simpl. by rewrite append_empty_r.
  - rewrite concat_fragments_cons. unfold fragment.
    change ((c :: cs1) ++ cs2)%list with (c :: (cs1 ++ cs2))%list.
    cbn [OpenAIAssistant.consume].
    destruct (OpenAIAssistant.chunk_content c) as [err|content]; [done|].
    destruct (truthy content); [destruct (to_String content) as [text|]|];
      try done.
    rewrite IH. cbn [default]. by rewrite append_assoc.
Qed.

Lemma holds_set_innerHTML el text w : holds el (set_innerHTML el text w) text.
Proof. split; [apply last_snoc|done]. Qed.

(** The render target holds the accumulator. *)
Lemma consume_holds el cs rt w w' :
  holds el w rt ->
  OpenAIAssistant.consume el cs rt w = (w', None) ->
  holds el w' (rt ++ concat_fragments cs).
Proof.
  revert rt w. induction cs as [|c cs IH]; intros rt w Hw.
  - simpl. intros [= <-]. by rewrite append_empty_r.
  - rewrite concat_fragments_cons. unfold fragment.
    cbn [OpenAIAssistant.consume].
    destruct (OpenAIAssistant.chunk_content c) as [err|content]; [done|].
    destruct (truthy content); [destruct (to_String content) as [text|]|];
      try done; intros H.
    + apply IH in H; [|apply holds_set_innerHTML]. cbn [default].
      by rewrite <- append_assoc.
    + apply IH in H; done.
Qed.

(** After each chunk of a stream that is consumed to its end, the render
    target holds the concatenation of the fragments received so far. *)
Lemma consume_prefix el cs rt w w' (k : nat) :
  holds el w rt ->
  OpenAIAssistant.consume el cs rt w = (w', None) ->
  exists wk,
    OpenAIAssistant.consume el (take k cs) rt w = (wk, None) /\
    holds el wk (rt ++ concat_fragments (take k cs)) /\
    OpenAIAssistant.consume el (drop k cs) (rt ++ concat_fragments (take k cs)) wk
    = (w', None).
Proof.
  intros Hw H. rewrite <- (take_drop k cs), consume_app in H.
  destruct (OpenAIAssistant.consume el (take k cs) rt w) as [wk [err|]] eqn:E;
    [done|].
  exists wk. split; [done|]. split; [|done].
  by apply (consume_holds _ _ _ w).
Qed.

(** A stream whose chunks are all objects, with contents that can be
    converted to a string, is consumed to its end. *)
Lemma consume_total el cs rt w :
  Forall (fun c => c <> VUndefined /\ c <> VNull /\
                   forall content, OpenAIAssistant.chunk_content c = inr content ->
                                   is_Some (to_String content)) cs ->
  exists w', OpenAIAssistant.consume el cs rt w = (w', None).
Proof.
  intros H. revert rt w. induction H as [|c cs (Hu & Hn & Hc) _ IH]; intros rt w.
  - by exists w.
  - cbn [OpenAIAssistant.consume].
    destruct (OpenAIAssistant.chunk_content c) as [err|content] eqn:E.
    + by destruct c.
    + destruct (truthy content); [|apply IH].
      destruct (Hc content eq_refl) as [text ->]. apply IH.
Qed.

Lemma sendRequest_stream_inv this backend prompt_list el omit w0 w' v :
  OpenAIAssistant.sendRequest this backend prompt_list (Some el) omit w0
  = (w', inr v) ->
  exists resp,
    backend (length (sent w0))
      (OpenAIAssistant.build_params this prompt_list (Some el) omit)
    = Resolved resp /\
    fault resp = None /\
    OpenAIAssistant.consume el (chunks resp) ""
      (send (OpenAIAssistant.build_params this prompt_list (Some el) omit)
         (set_innerHTML el "" w0)) = (w', None) /\
    v = VString (innerHTML w').
Proof.
  unfold OpenAIAssistant.sendRequest. cbn [sent set_innerHTML].
  destruct (backend _ _) as [err|resp]; [done|].
  destruct (OpenAIAssistant.consume _ _ _ _) as [w3 [err|]] eqn:C; [done|].
  destruct (fault resp) eqn:F; [done|].
  intros [= <- <-]. eauto.
Qed.

(** C7, as stated, fails on a DOM element: the fragments ["Tom & "] and
    ["Jerry"] are assigned to the render target as [""], ["Tom & "] and
    ["Tom & Jerry"], but the call returns what reading the element's
    [innerHTML] gives, ["Tom &amp; Jerry"], which is not the
    concatenation of the fragments. *)
Lemma streamed_return_counterexample :
  concat_fragments [delta_chunk "Tom & "; delta_chunk "Jerry"] = "Tom & Jerry" /\
  (fun r => (assigned (fst r), snd r))
    <$> OpenAIAssistant.text_api_call limited_assistant ampersand_backend []
          (Some dom_target) 2 empty_world
  = Some ([""; "Tom & "; "Tom & Jerry"], VString "Tom &amp; Jerry").
Proof. split; vm_compute; reflexivity. Qed.

(** C7, amended: a streamed call returns (two rounds of the loop suffice),
    and when it returns a text, the round that produced it first cleared
    the render target, then consumed the chunks of the response in order so
    that after each chunk the render target held the concatenation of the
    fragments received so far; the text returned is what the render target
    reads back once the concatenation of all the fragments has been
    assigned to it, and it is that concatenation itself whenever the render
    target reads it back unchanged. *)
Theorem streamed_text_accumulates
    (this : OpenAIAssistant.t) (backend : nat -> gmap string value -> reply)
    (prompt_list : list value) (el : element) (fuel : nat) (w : world) :
  (2 <= fuel)%nat ->
  exists w' v,
    OpenAIAssistant.text_api_call this backend prompt_list (Some el) fuel w
    = Some (w', v) /\
    forall txt, v = VString txt ->
      exists omit w0 resp,
        let params :=
          OpenAIAssistant.build_params this prompt_list (Some el) omit in
        let cleared := set_innerHTML el "" w0 in
        let total := concat_fragments (chunks resp) in
        backend (length (sent w0)) params = Resolved resp /\
        holds el cleared "" /\
        (forall k : nat, exists wk,
           OpenAIAssistant.consume el (take k (chunks resp)) "" (send params cleared)
           = (wk, None) /\
           holds el wk (concat_fragments (take k (chunks resp)))) /\
        OpenAIAssistant.consume el (chunks resp) "" (send params cleared)
        = (w', None) /\
        holds el w' total /\
        txt = read_back el total /\
        (read_back el total = total -> txt = total).
Proof.
  intros Hf. unfold OpenAIAssistant.text_api_call.
  destruct (attempts_terminate this backend prompt_list (Some el) fuel
              (negb (OpenAIAssistant.includeMaxTokens this)) w Hf)
    as (w' & v & E & _).
  exists w', v. split; [done|]. intros txt ->.
  apply attempts_text_inv in E as (omit & w0 & E).
  apply sendRequest_stream_inv in E as (resp & Hb & _ & C & [= ->]).
  exists omit, w0, resp. cbv zeta.
  split; [done|]. split; [apply holds_set_innerHTML|].
  set (start := send _ (set_innerHTML el "" w0)) in *.
  assert (Hs : holds el start "") by apply (holds_set_innerHTML el "" w0).
  pose proof (consume_holds _ _ _ _ _ Hs C) as [L I].
  split.
  { intros k. destruct (consume_prefix _ _ _ _ _ k Hs C) as (wk & Ck & Hk & _).
    eauto. }
  split; [done|]. split; [by split|]. split; [done|]. by intros <-.
Qed.

Lemma streamed_text_accumulates_witness :
  exists w',
    OpenAIAssistant.text_api_call limited_assistant hello_backend []
      (Some dom_target) 2 empty_world = Some (w', VString "Hello") /\
    holds dom_target w' "Hello".
Proof.
  destruct (streamed_text_accumulates limited_assistant hello_backend []
              dom_target 2 empty_world (le_n 2)) as (w' & v & E & H).
  vm_compute in E. injection E as <- <-.
  eexists. split; [vm_compute; reflexivity|].
  destruct (H "Hello" eq_refl)
    as (omit & w0 & resp & Hb & _ & _ & _ & Hh & _).
  injection Hb as <-. exact Hh.
Defined.

(** The property of the specification: fragments ["Hel"] then ["lo"]; the
    render target, a DOM element or a plain object, is assigned [""],
    ["Hel"], ["Hello"] in that order, reads ["Hello"] at the end, and the
    call returns ["Hello"]. *)
Example streaming_aggregation_example :
  (fun r => (assigned (fst r), innerHTML (fst r), snd r))
    <$> OpenAIAssistant.text_api_call limited_assistant hello_backend []
          (Some dom_target) 2 empty_world
  = Some ([""; "Hel"; "Hello"], "Hello", VString "Hello") /\
  (fun r => (assigned (fst r), innerHTML (fst r), snd r))
    <$> OpenAIAssistant.text_api_call limited_assistant hello_backend []
          (Some plain_target) 2 empty_world
  = Some ([""; "Hel"; "Hello"], "Hello", VString "Hello").
Proof. split; vm_compute; reflexivity. Qed.

(** *** Resolver *)

Lemma or_else_empty s : or_else s "" = s.
Proof. by destruct s. Qed.

Lemma slot_eqb_eq a b : slot_eqb a b = true <-> a = b.
Proof. destruct a, b; simpl; split; congruence. Qed.

Lemma resolveSlot_twice (s : AiAssistantSettings) (ts ss : ProviderSlot) :
  snd (resolveSlot s ts []) = resolve s ts /\
  snd (resolveSlot s ss (fst (resolveSlot s ts []))) = resolve s ss.
Proof.
  assert (Ht : resolveSlot s ts [] = ([(ts, resolve s ts)], resolve s ts)).
  { unfold resolveSlot, resolve. cbn [map_has existsb].
    destruct (is_empty _); reflexivity. }
  rewrite Ht. cbn [fst snd]. split; [reflexivity|].
  unfold resolveSlot. cbn [map_has existsb fst map_get]. rewrite orb_false_r.
  destruct (slot_eqb ts ss) eqn:E.
  - apply slot_eqb_eq in E as ->. reflexivity.
  - unfold resolve. destruct (is_empty _); reflexivity.
Qed.

(** The per-rebuild cache is transparent: each capability gets what
    resolving its slot afresh gives. *)
Lemma buildAssistants_resolve (s : AiAssistantSettings) (c : Capability) :
  getAssistant (buildAssistants s) c = resolve s (configured_slot s c).
Proof.
  unfold buildAssistants, configured_slot.
  destruct c;
    generalize (normalizeProviderSlot_number (textProvider s));
    generalize (normalizeProviderSlot_number (speechProvider s));
    intros ss ts; cbv zeta;
    destruct (resolveSlot_twice s ts ss) as [Ht Hs];
    destruct (resolveSlot s ts []) as [cache t]; cbn [fst snd] in Ht, Hs;
    destruct (resolveSlot s ss cache) as [cache' r]; cbn [snd] in Hs;
    subst t r; reflexivity.
Qed.

(** C9: a capability whose configured slot has a blank API key resolves to
    absent in a rebuild, and the command that asks for it answers with a
    notice that the provider is to be configured, without failing. *)
Theorem blank_key_capability_absent (s : AiAssistantSettings) (c : Capability) :
  blank (slot_key s (configured_slot s c)) = true ->
  getAssistant (buildAssistants s) c = None /\
  exists message, command (buildAssistants s) c = ShowNotice message.
Proof.
  intros Hb.
  assert (E : getAssistant (buildAssistants s) c = None).
  { rewrite buildAssistants_resolve. unfold resolve, getProviderConfig.
    cbn [fst]. rewrite or_else_empty.
    unfold blank, slot_key in Hb. by destruct (configured_slot s c); rewrite Hb. }
  split; [done|]. unfold command. rewrite E. eauto.
Qed.

Lemma blank_key_capability_absent_witness :
  blank (slot_key whitespace_key_settings
           (configured_slot whitespace_key_settings speech)) = true /\
  getAssistant (buildAssistants whitespace_key_settings) speech = None.
Proof.
  split; [reflexivity|].
  apply (blank_key_capability_absent whitespace_key_settings speech). reflexivity.
Defined.

(** A capability whose slot has a key that is not blank gets an
    assistant. *)
Lemma keyed_capability_present (s : AiAssistantSettings) (c : Capability) :
  blank (slot_key s (configured_slot s c)) = false ->
  exists a, getAssistant (buildAssistants s) c = Some a /\
            command (buildAssistants s) c = OpenModal c a.
Proof.
  intros Hb. unfold command. rewrite buildAssistants_resolve.
  unfold resolve, getProviderConfig. cbn [fst snd]. rewrite or_else_empty.
  unfold blank, slot_key in Hb.
  destruct (configured_slot s c); rewrite Hb; eauto.
Qed.

(** *** Assistant factory *)

Lemma until_path_prefix s : exists post, s = until_path s ++ post.
Proof.
  induction s as [|c s [post IH]]; [by exists ""|].
  simpl. destruct (_ || _); [by eexists|].
  exists post. rewrite append_cons. congruence.
Qed.

Lemma after_scheme_suffix s t :
  after_scheme s = Some t -> exists pre, s = pre ++ t.
Proof.
  induction s as [|c s IH]; [done|].
  cbn [after_scheme]. destruct (starts_with "://" (String c s)) eqn:E.
  - apply starts_with_spec in E as [b ->]. intros [= <-]. by exists "://".
  - intros H. destruct (IH H) as [pre ->]. by exists (String c pre).
Qed.

(** The host is a part of the URL. *)
Lemma host_infix url : exists pre post, url = pre ++ host url ++ post.
Proof.
  unfold host. destruct (after_scheme url) as [t|] eqn:E; simpl.
  - apply after_scheme_suffix in E as [pre ->].
    destruct (until_path_prefix t) as [post Hp]. exists pre, post. congruence.
  - destruct (until_path_prefix url) as [post Hp]. by exists "", post.
Qed.

Lemma includes_ci_host p url :
  includes_ci p (host url) = true -> includes_ci p url = true.
Proof.
  intros H. destruct (host_infix url) as (pre & post & E). rewrite E.
  by apply includes_ci_app_r, includes_ci_app_l.
Qed.

Lemma blank_all_white s : blank s = true -> all_white s = true.
Proof.
  unfold blank, trim. intros H.
  assert (E : trimStart s = "").
  { destruct (trimStart_head s) as [E|(c & r & E & W)]; [done|].
    rewrite E in H. destruct (trimEnd_head c r W) as [r' E'].
    by rewrite E' in H. }
  clear H. induction s as [|c s IH]; [done|].
  simpl in *. destruct (is_white c); [by apply IH|done].
Qed.

Lemma lower_ascii_white c : is_white c = true -> is_white (lower_ascii c) = true.
Proof.
  destruct c as [[] [] [] [] [] [] [] []]; vm_compute; congruence.
Qed.

Lemma all_white_lower s : all_white s = true -> all_white (lower s) = true.
Proof.
  induction s as [|c s IH]; [done|]. simpl.
  rewrite !andb_true_iff. intros [W H]. split; [by apply lower_ascii_white|auto].
Qed.

Lemma all_white_app a b :
  all_white (a ++ b) = true -> all_white a = true /\ all_white b = true.
Proof.
  induction a as [|c a IH]; [done|]. rewrite append_cons. simpl.
  rewrite !andb_true_iff. intros [W H]. destruct (IH H). done.
Qed.

(** A blank text contains no match of the Anthropic domain. *)
Lemma blank_not_anthropic s :
  blank s = true -> includes_ci "anthropic.com" s = false.
Proof.
  intros H. apply blank_all_white, all_white_lower in H.
  destruct (includes_ci "anthropic.com" s) eqn:E; [|done].
  apply includes_spec in E as (a & b & E). rewrite E in H.
  apply all_white_app in H as [_ H]. done.
Qed.

(** C4, as stated, fails: the host of this base URL is
    [gateway.example.org], which does not match the Anthropic domain, so by
    the claim the factory builds the OpenAI-compatible assistant; it builds
    the Anthropic one, because the path contains [anthropic.com]. *)
Lemma createAssistant_host_counterexample :
  host "https://gateway.example.org/anthropic.com/v1" = "gateway.example.org" /\
  includes_ci "anthropic.com" (host "https://gateway.example.org/anthropic.com/v1")
  = false /\
  family_of
    (createAssistant DEFAULT_SETTINGS "key"
       "https://gateway.example.org/anthropic.com/v1")
  = AnthropicFamily.
Proof. repeat split; reflexivity. Qed.

(** C4, amended: the factory builds the Anthropic assistant exactly when
    the effective base URL, taken as a whole text, contains [anthropic.com]
    in any letter case, and the OpenAI-compatible assistant otherwise; the
    effective base URL is the given one, or the compiled default when the
    given one is empty.  A match in the host is such a match; an empty or
    blank base URL gives the OpenAI-compatible assistant; the API key and
    the settings have no part in the decision. *)
Theorem createAssistant_family
    (s : AiAssistantSettings) (apiKey baseUrl : string) :
  let effectiveBase := or_else baseUrl DEFAULT_API_BASE_URL in
  family_of (createAssistant s apiKey baseUrl) =
    (if includes_ci "anthropic.com" effectiveBase
     then AnthropicFamily else OpenAICompatible) /\
  (includes_ci "anthropic.com" (host effectiveBase) = true ->
     family_of (createAssistant s apiKey baseUrl) = AnthropicFamily) /\
  (blank baseUrl = true ->
     family_of (createAssistant s apiKey baseUrl) = OpenAICompatible) /\
  (baseUrl = "" -> effectiveBase = DEFAULT_API_BASE_URL) /\
  (forall s' apiKey',
     family_of (createAssistant s' apiKey' baseUrl)
     = family_of (createAssistant s apiKey baseUrl)).
Proof.
  intros effectiveBase.
  assert (E : forall s0 k,
    family_of (createAssistant s0 k baseUrl) =
      if includes_ci "anthropic.com" effectiveBase
      then AnthropicFamily else OpenAICompatible).
  { intros s0 k. unfold createAssistant. fold effectiveBase.
    by destruct (includes_ci _ _). }
  split; [apply E|]. split; [|split; [|split]].
  - intros H. rewrite E. by rewrite (includes_ci_host _ _ H).
  - intros H. rewrite E. subst effectiveBase. unfold or_else.
    destruct (is_empty baseUrl); [reflexivity|].
    by rewrite (blank_not_anthropic _ H).
  - by intros ->.
  - intros s' k'. by rewrite !E.
Qed.

Lemma createAssistant_family_witness :
  family_of (createAssistant DEFAULT_SETTINGS "key" "https://API.Anthropic.com/v1")
  = AnthropicFamily /\
  family_of (createAssistant DEFAULT_SETTINGS "key" "   ") = OpenAICompatible.
Proof.
  split.
  - destruct (createAssistant_family DEFAULT_SETTINGS "key"
                "https://API.Anthropic.com/v1") as (_ & H & _).
    apply H. reflexivity.
  - destruct (createAssistant_family DEFAULT_SETTINGS "key" "   ")
      as (_ & _ & H & _).
    apply H. reflexivity.
Defined.

(** The examples of the specification. *)
Example createAssistant_examples :
  family_of (createAssistant DEFAULT_SETTINGS "key" "https://api.anthropic.com/v1")
  = AnthropicFamily /\
  family_of (createAssistant DEFAULT_SETTINGS "key" "https://openrouter.ai/api/v1")
  = OpenAICompatible /\
  createAssistant DEFAULT_SETTINGS "key" "" =
    OpenAI (OpenAIAssistant.constructor "key" DEFAULT_API_BASE_URL
              DEFAULT_TEXT_MODEL (Num 0) DEFAULT_SPEECH_MODEL).
Proof. repeat split; reflexivity. Qed.


(** *** Settings migration *)

Lemma lookup_foldl_delete (ks : list string) (m : gmap string value) k :
  foldl (fun m k => delete k m) m ks !! k
  = if decide (k ∈ ks) then None else m !! k.
Proof.
  revert m. induction ks as [|k0 ks IH]; intros m; simpl; [done|].
  rewrite IH. destruct (decide (k0 = k)) as [->|Hne].
  - rewrite lookup_delete_eq. repeat case_decide; set_solver.
  - rewrite lookup_delete_ne by done. repeat case_decide; set_solver.
Qed.

Lemma lookup_foldl_delete_kept (ks : list string) (m : gmap string value) k :
  existsb (String.eqb k) ks = false ->
  foldl (fun m k => delete k m) m ks !! k = m !! k.
Proof.
  revert m. induction ks as [|k0 ks IH]; intros m; simpl; [done|].
  rewrite orb_false_iff. intros [Hk Hks]. rewrite IH by done.
  apply lookup_delete_ne. intros ->. by rewrite String.eqb_refl in Hk.
Qed.

Lemma foldl_delete_absent (ks : list string) (m : gmap string value) :
  (forall k, k ∈ ks -> m !! k = None) ->
  foldl (fun m k => delete k m) m ks = m.
Proof.
  revert m. induction ks as [|k0 ks IH]; intros m H; simpl; [done|].
  rewrite delete_id by (apply H; set_solver). apply IH. intros k Hk.
  apply H. set_solver.
Qed.

Lemma get_lookup (m : gmap string value) k v :
  m !! k = Some v -> get m k = v.
Proof. unfold get. by intros ->. Qed.

Lemma get_string_lookup (m : gmap string value) k :
  is_string (get m k) = true -> m !! k = Some (get m k).
Proof. unfold get. by destruct (m !! k). Qed.

Lemma get_eq (m m' : gmap string value) k : m !! k = m' !! k -> get m k = get m' k.
Proof. unfold get. by intros ->. Qed.

(** The conversions of the migration raise exactly when [String] does
    on the field. *)
Lemma to_String_nullish v :
  to_String (nullish v (VString "")) = None <-> to_String v = None.
Proof. by destruct v as [| |[]| | | |]. Qed.

Lemma trimmed_text_None v : trimmed_text v = None <-> to_String v = None.
Proof.
  unfold trimmed_text. rewrite <- to_String_nullish.
  by destruct (to_String (nullish v (VString ""))).
Qed.

Lemma trimmed_text_Some v t :
  trimmed_text v = Some t -> exists s, t = VString s /\ trim s = s.
Proof.
  unfold trimmed_text. destruct (to_String _) as [text|]; [|done].
  intros [= <-]. eexists. split; [done|]. apply trim_idem.
Qed.

Lemma trimmed_text_string v :
  is_string v = true -> exists s, trimmed_text v = Some (VString s) /\ trim s = s.
Proof.
  destruct v; try done. intros _. eexists. split; [reflexivity|]. apply trim_idem.
Qed.

Lemma normalizeProviderSlot_None v :
  normalizeProviderSlot v = None <-> to_String v = None.
Proof.
  unfold normalizeProviderSlot. rewrite <- to_String_nullish.
  by destruct (to_String (nullish v (VString ""))).
Qed.

Lemma nullish_twice a b : nullish (nullish a a) b = nullish a b.
Proof. by destruct a. Qed.

Lemma opt_get_truthy d k : truthy d = true -> opt_get d k = get_prop d k.
Proof. by destruct d. Qed.

Lemma stored_tokens_stored text : stored_limit (stored_tokens text).
Proof.
  unfold stored_tokens. destruct (isNaN (parseInt text) || lt0 (parseInt text)) eqn:G.
  - split; [done|]. by apply to_double_small.
  - by apply parseInt_stored.
Qed.

Lemma or_else_not_empty a b : is_empty b = false -> is_empty (or_else a b) = false.
Proof. unfold or_else. by destruct (is_empty a) eqn:E. Qed.

Lemma trim_or_else_default s :
  trim (or_else (trim s) DEFAULT_API_BASE_URL) = or_else (trim s) DEFAULT_API_BASE_URL.
Proof. unfold or_else. destruct (is_empty (trim s)); [done|apply trim_idem]. Qed.

(** On a present input the migration raises on an unconvertible field;
    otherwise every field of the patch is what the description of the
    migration says. *)
Lemma migrate_outcome d :
  truthy d = true -> migration_outcome d (migrateSettings d).
Proof.
  intros Ht. cbv beta delta [migrateSettings]. rewrite Ht.
  cbv beta iota delta [negb mbind option_bind].
  peel m0. peel lk. peel m1.
  assert (K1 : forall k, k <> "apiKey1" -> m1 !! k = m0 !! k).
  { intros k Hk. unfold m1. case_match; [|done]. by rewrite lookup_insert_ne. }
  assert (S1 : trimmed_text (get m1 "apiKey1") = Some (VString (migrated_apiKey1 d))).
  { unfold m1, migrated_apiKey1. fold lk.
    change (get_prop d "apiKey1") with (get m0 "apiKey1").
    destruct (get m0 "apiKey1") eqn:G; cbn [is_string]; rewrite ?G; try done;
      unfold get; rewrite lookup_insert_eq; cbn [default from_option];
      destruct lk; try done. }
  rewrite S1. cbv beta iota. clear S1. peel m2.
  assert (K2 : forall k, k <> "apiKey1" -> m2 !! k = m0 !! k).
  { intros k Hk. unfold m2. by rewrite lookup_insert_ne, K1. }
  assert (G2 : get m2 "apiKey2" = get_prop d "apiKey2").
  { apply get_eq, K2. done. }
  rewrite G2. destruct (trimmed_text (get_prop d "apiKey2")) as [key2|] eqn:E2;
    cbv beta iota.
  2:{ exists "apiKey2". split; [in_list|]. by apply trimmed_text_None. }
  peel m3. peel lb. peel m4.
  assert (K3 : forall k, k <> "apiKey1" -> k <> "apiKey2" -> m3 !! k = m0 !! k).
  { intros k Hk Hk'. unfold m3. by rewrite lookup_insert_ne, K2. }
  assert (K4 : forall k, k <> "apiBaseUrl1" -> m4 !! k = m3 !! k).
  { intros k Hk. unfold m4. case_match; [|done]. by rewrite lookup_insert_ne. }
  assert (G3 : get m3 "apiBaseUrl1" = get_prop d "apiBaseUrl1").
  { apply get_eq, K3; done. }
  pose (u1 := trim match get_prop d "apiBaseUrl1" with
                   | VString s => s
                   | _ => lb
                   end).
  assert (S4 : trimmed_text (get m4 "apiBaseUrl1") = Some (VString u1)).
  { unfold m4, u1. rewrite G3.
    destruct (get_prop d "apiBaseUrl1") eqn:G; cbn [is_string];
      rewrite ?G3, ?G; try done; unfold get; by rewrite lookup_insert_eq. }
  rewrite S4. cbv beta iota. clear S4. peel m5.
  assert (K5 : forall k, k <> "apiBaseUrl1" -> m5 !! k = m3 !! k).
  { intros k Hk. unfold m5. by rewrite lookup_insert_ne, K4. }
  assert (G5 : get m5 "apiBaseUrl2" = get_prop d "apiBaseUrl2").
  { apply get_eq. rewrite K5, K3; done. }
  rewrite G5. destruct (trimmed_text (get_prop d "apiBaseUrl2")) as [url2|] eqn:E5;
    cbv beta iota.
  2:{ exists "apiBaseUrl2". split; [in_list|]. by apply trimmed_text_None. }
  peel m6. peel m7.
  assert (K6 : forall k, k <> "apiBaseUrl2" -> m6 !! k = m5 !! k).
  { intros k Hk. unfold m6. by rewrite lookup_insert_ne. }
  assert (K7 : forall k, k <> "apiBaseUrl1" -> m7 !! k = m6 !! k).
  { intros k Hk. unfold m7. case_match; [|done]. by rewrite lookup_insert_ne. }
  assert (G7 : get m7 "textProvider" = get_prop d "textProvider").
  { apply get_eq. rewrite K7, K6, K5, K3; done. }
  rewrite G7.
  destruct (normalizeProviderSlot (get_prop d "textProvider")) as [ts|] eqn:E7;
    cbv beta iota.
  2:{ exists "textProvider". split; [in_list|]. by apply normalizeProviderSlot_None. }
  peel m8.
  assert (K8 : forall k, k <> "textProvider" -> m8 !! k = m7 !! k).
  { intros k Hk. unfold m8. by rewrite lookup_insert_ne. }
  assert (G8 : get m8 "speechProvider" = get_prop d "speechProvider").
  { apply get_eq. rewrite K8, K7, K6, K5, K3; done. }
  rewrite G8.
  destruct (normalizeProviderSlot (get_prop d "speechProvider")) as [ss|] eqn:E8;
    cbv beta iota.
  2:{ exists "speechProvider". split; [in_list|].
      by apply normalizeProviderSlot_None. }
  peel m9. peel m10.
  assert (K9 : forall k, k <> "speechProvider" -> m9 !! k = m8 !! k).
  { intros k Hk. unfold m9. by rewrite lookup_insert_ne. }
  assert (K10 : forall k, k <> "speechModelName" -> m10 !! k = m9 !! k).
  { intros k Hk. unfold m10. case_match; [|done]. by rewrite lookup_insert_ne. }
  assert (G9 : get m9 "speechModelName" = get_prop d "speechModelName").
  { apply get_eq. rewrite K9, K8, K7, K6, K5, K3; done. }
  assert (G10 : get m10 "maxTokens" = get_prop d "maxTokens").
  { apply get_eq. rewrite K10, K9, K8, K7, K6, K5, K3; done. }
  rewrite G10, (opt_get_truthy _ _ Ht), nullish_twice.
  destruct (to_String (nullish (get_prop d "maxTokens") (VString "")))
    as [tokensText|] eqn:E10; cbv beta iota.
  2:{ exists "maxTokens". split; [in_list|]. by apply to_String_nullish. }
  peel pt. peel m11.
  assert (K11 : forall k, k <> "maxTokens" -> m11 !! k = m10 !! k).
  { intros k Hk. unfold m11. case_match; by rewrite lookup_insert_ne. }
  assert (KD : forall k, existsb (String.eqb k) obsolete_fields = false ->
               foldl (fun m k => delete k m) m11 obsolete_fields !! k = m11 !! k).
  { intros k Hk. by apply lookup_foldl_delete_kept. }
  cbn [migration_outcome]. split.
  { intros (k & Hk & E). unfold stringified_fields in Hk.
    repeat (apply elem_of_cons in Hk as [->|Hk]).
    - apply trimmed_text_None in E. congruence.
    - apply trimmed_text_None in E. congruence.
    - apply normalizeProviderSlot_None in E. congruence.
    - apply normalizeProviderSlot_None in E. congruence.
    - apply to_String_nullish in E. congruence.
    - by apply elem_of_nil in Hk. }
  split; try (rewrite KD by reflexivity).
  - rewrite K11, K10, K9, K8, K7, K6, K5 by done.
    unfold m3. rewrite lookup_insert_ne by done.
    unfold m2. by rewrite lookup_insert_eq.
  - rewrite K11, K10, K9, K8, K7, K6, K5 by done.
    unfold m3. rewrite lookup_insert_eq.
    unfold trimmed_text in E2. destruct (to_String _) as [text|]; [|done].
    injection E2 as <-. eauto.
  - rewrite K11, K10, K9, K8 by done.
    assert (L6 : m6 !! "apiBaseUrl1" = Some (VString u1)).
    { rewrite K6 by done. unfold m5. by rewrite lookup_insert_eq. }
    assert (E : migrated_apiBaseUrl1 d = or_else u1 DEFAULT_API_BASE_URL).
    { unfold migrated_apiBaseUrl1, u1, lb.
      destruct (get_prop d "apiBaseUrl1"); try done;
        destruct (get_prop d "apiBaseUrl"); try done;
        unfold or_else at 2; by destruct (is_empty (trim _)). }
    rewrite E. unfold m7. rewrite (get_lookup _ _ _ L6). cbn [truthy].
    unfold or_else. destruct (is_empty u1); cbn [negb];
      [by rewrite lookup_insert_eq|done].
  - rewrite K11, K10, K9, K8, K7 by done.
    unfold m6. rewrite lookup_insert_eq.
    unfold trimmed_text in E5. destruct (to_String _) as [text|]; [|done].
    injection E5 as <-. eauto.
  - rewrite K11, K10, K9 by done.
    unfold m8. rewrite lookup_insert_eq. eauto.
  - rewrite K11, K10 by done.
    unfold m9. rewrite lookup_insert_eq. eauto.
  - rewrite K11 by done. unfold m10, migrated_speechModelName. rewrite <- G9.
    destruct (is_string (get m9 "speechModelName")) eqn:S; cbn [negb orb].
    + pose proof (get_string_lookup _ _ S) as L.
      destruct (get m9 "speechModelName") as [| | | |s| |]; try done.
      cbn [truthy]. unfold or_else. destruct (is_empty s); cbn [negb];
        [by rewrite lookup_insert_eq|done].
    + rewrite lookup_insert_eq. by destruct (get m9 "speechModelName").
  - exists tokensText. split; [done|]. unfold m11, stored_tokens. fold pt.
    by destruct (isNaN pt || lt0 pt); rewrite lookup_insert_eq.
  - intros k Hk. rewrite lookup_foldl_delete. by case_decide.
  - intros k Hw Ho. rewrite lookup_foldl_delete. case_decide; [done|].
    unfold written_fields in Hw.
    rewrite K11, K10, K9, K8, K7, K6, K5, K3 by (intros ->; apply Hw; in_list).
    done.
Qed.

(** The patch has the migrated shape. *)
Lemma migrated_from_shape d m : migrated_from d m -> migrated_shape m.
Proof.
  intros [K1 (t2 & _ & K2) U1 (t4 & _ & U2) (ts & _ & TP) (ss & _ & SP) SM
          (tt & _ & MT) OBS _].
  split; eauto.
  - eexists. split; [done|]. apply trim_idem.
  - eexists. split; [done|]. apply trim_idem.
  - eexists. split; [done|]. unfold migrated_apiBaseUrl1.
    split; [|by apply or_else_not_empty].
    unfold or_else. destruct (is_empty (trim _)); [done|apply trim_idem].
  - eexists. split; [done|]. apply trim_idem.
  - eexists. split; [done|]. unfold migrated_speechModelName.
    destruct (get_prop d "speechModelName"); try done.
    by apply or_else_not_empty.
  - eexists. split; [done|]. apply stored_tokens_stored.
Qed.

(** A stored limit below [10^21] is read back as it is. *)
Lemma reread_small z : stored_limit (Num z) -> z < 10 ^ 21 -> reread (Num z) = Num z.
Proof.
  intros [Hz E] Hb. unfold reread, stored_tokens.
  rewrite parseInt_number_to_string by (rewrite Z.abs_eq by done; done).
  cbn [isNaN lt0 orb]. by destruct (Z.ltb_spec z 0); [lia|].
Qed.

Lemma trimmed_text_VString s : trimmed_text (VString s) = Some (VString (trim s)).
Proof. reflexivity. Qed.

(** Migrating an object of the migrated shape changes nothing but the
    token limit, which is read again from its text. *)
Lemma migrate_again m :
  migrated_shape m ->
  exists n, m !! "maxTokens" = Some (VNumber n) /\
    migrateSettings (VObject m) = Some (<["maxTokens" := VNumber (reread n)]> m).
Proof.
  intros [(k1 & K1 & T1) (k2 & K2 & T2) (u1 & U1 & T3 & N1) (u2 & U2 & T4)
          (tp & TP) (sp & SP) (sm & SM & N2) (n & MT & Hn) OBS].
  exists n. split; [done|].
  cbv beta delta [migrateSettings].
  cbv beta iota delta [negb truthy own_props mbind option_bind].
  peel m0. peel lk.
  peel m1. assert (m1 = m) as ->.
  { unfold m1, m0. by rewrite (get_lookup _ _ _ K1). }
  rewrite (get_lookup _ _ _ K1). rewrite trimmed_text_VString, T1.
  cbv beta iota.
  peel m2. assert (m2 = m) as ->.
  { unfold m2. by rewrite insert_id. }
  rewrite (get_lookup _ _ _ K2). rewrite trimmed_text_VString, T2.
  cbv beta iota.
  peel m3. assert (m3 = m) as ->.
  { unfold m3. by rewrite insert_id. }
  peel lb.
  peel m4. assert (m4 = m) as ->.
  { unfold m4. by rewrite (get_lookup _ _ _ U1). }
  rewrite (get_lookup _ _ _ U1). rewrite trimmed_text_VString, T3.
  cbv beta iota.
  peel m5. assert (m5 = m) as ->.
  { unfold m5. by rewrite insert_id. }
  rewrite (get_lookup _ _ _ U2). rewrite trimmed_text_VString, T4.
  cbv beta iota.
  peel m6. assert (m6 = m) as ->.
  { unfold m6. by rewrite insert_id. }
  peel m7. assert (m7 = m) as ->.
  { unfold m7. rewrite (get_lookup _ _ _ U1). cbn [truthy]. by rewrite N1. }
  rewrite (get_lookup _ _ _ TP), normalize_slot_number.
  cbv beta iota.
  peel m8. assert (m8 = m) as ->.
  { unfold m8. by rewrite insert_id. }
  rewrite (get_lookup _ _ _ SP), normalize_slot_number.
  cbv beta iota.
  peel m9. assert (m9 = m) as ->.
  { unfold m9. by rewrite insert_id. }
  peel m10. assert (m10 = m) as ->.
  { unfold m10. rewrite (get_lookup _ _ _ SM). cbn [is_string truthy]. by rewrite N2. }
  change (opt_get (VObject m) "maxTokens") with (get m "maxTokens").
  rewrite (get_lookup _ _ _ MT).
  change (to_String (nullish (nullish (VNumber n) (VNumber n)) (VString "")))
    with (Some (number_to_string n)).
  cbv beta iota.
  peel pt. peel m11.
  assert (m11 = <["maxTokens" := VNumber (reread n)]> m) as ->.
  { unfold m11, reread, stored_tokens. fold pt. by destruct (isNaN pt || lt0 pt). }
  f_equal. apply foldl_delete_absent. intros k Hk.
  rewrite lookup_insert_ne; [by apply OBS|].
  intros <-. unfold obsolete_fields in Hk.
  repeat (apply elem_of_cons in Hk as [Hk|Hk]; [done|]). by apply elem_of_nil in Hk.
Qed.

Lemma migrate_absent d : truthy d = false -> migrateSettings d = Some ∅.
Proof. intros H. cbv beta delta [migrateSettings]. by rewrite H. Qed.

Lemma defaults_shape : migrated_shape (to_object DEFAULT_SETTINGS).
Proof.
  split.
  - exists "". split; vm_compute; reflexivity.
  - exists "". split; vm_compute; reflexivity.
  - exists DEFAULT_API_BASE_URL. repeat split; vm_compute; reflexivity.
  - exists "". split; vm_compute; reflexivity.
  - exists slot1. vm_compute. reflexivity.
  - exists slot1. vm_compute. reflexivity.
  - exists DEFAULT_SPEECH_MODEL. split; vm_compute; reflexivity.
  - exists (Num 0). split; [vm_compute; reflexivity|].
    split; [done|]. vm_compute. reflexivity.
  - intros k Hk. unfold obsolete_fields in Hk.
    repeat (apply elem_of_cons in Hk as [->|Hk]; [vm_compute; reflexivity|]).
    by apply elem_of_nil in Hk.
Qed.

(** Merging over the defaults keeps the shape, and the token limit. *)
Lemma union_defaults_shape m :
  migrated_shape m ->
  migrated_shape (m ∪ to_object DEFAULT_SETTINGS) /\
  (m ∪ to_object DEFAULT_SETTINGS) !! "maxTokens" = m !! "maxTokens".
Proof.
  intros [(k1 & K1 & T1) (k2 & K2 & T2) (u1 & U1 & T3 & N1) (u2 & U2 & T4)
          (tp & TP) (sp & SP) (sm & SM & N2) (n & MT & Hn) OBS].
  generalize (to_object DEFAULT_SETTINGS) defaults_shape. intros D [_ _ _ _ _ _ _ _ Hd].
  split; [split|].
  - exists k1. by rewrite (lookup_union_Some_l _ _ _ _ K1).
  - exists k2. by rewrite (lookup_union_Some_l _ _ _ _ K2).
  - exists u1. by rewrite (lookup_union_Some_l _ _ _ _ U1).
  - exists u2. by rewrite (lookup_union_Some_l _ _ _ _ U2).
  - exists tp. by rewrite (lookup_union_Some_l _ _ _ _ TP).
  - exists sp. by rewrite (lookup_union_Some_l _ _ _ _ SP).
  - exists sm. by rewrite (lookup_union_Some_l _ _ _ _ SM).
  - exists n. by rewrite (lookup_union_Some_l _ _ _ _ MT).
  - intros k Hk. apply lookup_union_None. split; [by apply OBS|by apply Hd].
  - by rewrite (lookup_union_Some_l _ _ _ _ MT).
Qed.

(** Loading raises on a present input with an unconvertible field, and
    gives settings of the migrated shape otherwise. *)
Lemma load_outcome loaded :
  match loadSettings loaded with
  | Some s => migrated_shape s /\ ~ (truthy loaded = true /\ unconvertible loaded)
  | None => truthy loaded = true /\ unconvertible loaded
  end.
Proof.
  unfold loadSettings. destruct (truthy loaded) eqn:T.
  - pose proof (migrate_outcome _ T) as H.
    destruct (migrateSettings loaded) as [m|]; cbn [mbind option_bind].
    + destruct H as [Hu Hm]. apply migrated_from_shape in Hm.
      split; [by apply union_defaults_shape|]. by intros [_ ?].
    + done.
  - rewrite (migrate_absent _ T). cbn [mbind option_bind].
    rewrite (left_id_L ∅ (∪)). split; [apply defaults_shape|]. by intros [? _].
Qed.

Lemma shape_invariant m :
  migrated_shape m -> settings_invariant nonneg_or_infinite m.
Proof.
  intros [(k1 & K1 & T1) (k2 & K2 & T2) (u1 & U1 & T3 & N1) (u2 & U2 & T4)
          (tp & TP) (sp & SP) (sm & SM & N2) (n & MT & Hn) OBS].
  split; eauto.
  - exists u1. split; [done|]. by intros ->.
  - destruct tp; eauto.
  - destruct sp; eauto.
  - exists n. split; [done|]. destruct n as [z| | | | |]; try done.
    + left. apply Hn.
    + by left.
    + by right.
Qed.

(** The token limit of loaded settings is [Infinity] exactly when the
    text of the persisted limit begins with an integer that rounds to
    it. *)
Lemma load_infinite loaded s :
  loadSettings loaded = Some s ->
  s !! "maxTokens" = Some (VNumber PosInf) <->
  exists text z,
    to_String (nullish (get_prop loaded "maxTokens") (VString "")) = Some text /\
    leading_integer text = Some z /\ overflow_threshold <= z.
Proof.
  assert (Hth : 0 < overflow_threshold) by (vm_compute; reflexivity).
  assert (P : forall text,
    stored_tokens text = PosInf
    <-> exists z, leading_integer text = Some z /\ overflow_threshold <= z).
  { intros text. unfold stored_tokens.
    pose proof (parseInt_leading_integer text) as H.
    destruct (leading_integer text) as [z|].
    - destruct H as [H H0]. revert H.
      destruct (Z.ltb_spec z 0) as [Hl|Hl]; [|destruct (Z.eqb_spec z 0) as [Hz|Hz]];
        intros H.
      + split; [|intros (z' & [= <-] & ?); lia].
        rewrite H.
        destruct (to_double_integer (- z) ltac:(lia)) as [->|(z' & -> & Hz' & _)];
          [done|].
        destruct z' as [|q|q]; try done; lia.
      + split; [|intros (z' & [= <-] & ?); lia].
        destruct (H0 Hz) as [-> | ->]; done.
      + rewrite H. split.
        * intros E. exists z. split; [done|]. apply to_double_overflow; [lia|].
          destruct (to_double z 1) as [z'|f k| | | |]; try done;
            revert E; cbn [isNaN lt0 orb]; try done; by case_match.
        * intros (z' & [= <-] & Ho). apply to_double_overflow in Ho as ->; [done|lia].
    - rewrite H. split; [done|]. by intros (z & ? & _). }
  unfold loadSettings. destruct (truthy loaded) eqn:T.
  - pose proof (migrate_outcome _ T) as H.
    destruct (migrateSettings loaded) as [m|]; cbn [mbind option_bind]; [|done].
    destruct H as [_ [_ _ _ _ _ _ _ (text & Et & Em) _ _]]. intros [= <-].
    rewrite (lookup_union_Some_l _ _ _ _ Em), Et. split.
    + intros [= R]. apply P in R as (z & ? & ?). eauto.
    + intros (text' & z & [= <-] & L & Ho). do 2 f_equal. apply P. eauto.
  - rewrite (migrate_absent _ T). cbn [mbind option_bind].
    rewrite (left_id_L ∅ (∪)). intros [= <-]. split; [done|].
    intros (text & z & E & L & _). destruct loaded as [| |[]|[[]| | | | |]|[]| |];
      try done; injection E as <-; done.
Qed.

(** C2, as stated, fails: a persisted token limit that is a text of 309
    digits is loaded as [Infinity], which is not an integer; and loading
    raises when a persisted key is an object with a [toString] property of
    its own. *)
Lemma loadSettings_invariant_counterexample :
  is_Some (loadSettings overflowing_settings) /\
  (forall s, loadSettings overflowing_settings = Some s ->
     s !! "maxTokens" = Some (VNumber PosInf) /\
     ~ settings_invariant nonneg_integer s) /\
  loadSettings unconvertible_settings = None.
Proof.
  assert (L : loadSettings overflowing_settings ≫= (fun s => s !! "maxTokens")
              = Some (VNumber PosInf)) by (vm_compute; reflexivity).
  split; [by destruct (loadSettings overflowing_settings)|].
  split; [|vm_compute; reflexivity].
  intros s E.
  rewrite E in L. cbn [mbind option_bind] in L. split; [exact L|].
  intros [_ _ _ _ _ _ (n & Hn & Hi)]. rewrite L in Hn. by injection Hn as <-.
Qed.

(** C2, amended: loading raises exactly when the persisted value is
    present and one of the fields the migration converts to a string
    whatever it holds (the key and the base URL of slot 2, the two provider
    selectors, the token limit) cannot be converted; whenever it returns,
    the settings have four string slot fields, a base URL for slot 1 that
    is not empty, provider selectors that are 1 or 2, and a [maxTokens]
    that is a non-negative integer or [Infinity], never [NaN] and never
    negative; it is [Infinity] exactly when the text of the persisted limit
    begins with an integer of at least [2^1024 - 2^970]. *)
Theorem loadSettings_invariant (loaded : value) :
  (loadSettings loaded = None <-> truthy loaded = true /\ unconvertible loaded) /\
  (forall s, loadSettings loaded = Some s ->
     settings_invariant nonneg_or_infinite s /\
     (s !! "maxTokens" = Some (VNumber PosInf) <->
      exists text z,
        to_String (nullish (get_prop loaded "maxTokens") (VString "")) = Some text /\
        leading_integer text = Some z /\ overflow_threshold <= z)).
Proof.
  pose proof (load_outcome loaded) as H. split.
  - destruct (loadSettings loaded) as [s|]; [|done].
    destruct H as [_ H]. split; [done|]. intros H'. by destruct H.
  - intros s E. rewrite E in H. destruct H as [H _].
    split; [by apply shape_invariant|by apply load_infinite].
Qed.

Lemma loadSettings_invariant_witness :
  settings_invariant nonneg_or_infinite
    (migrated_legacy_settings ∪ to_object DEFAULT_SETTINGS).
Proof.
  destruct (loadSettings_invariant legacy_settings) as [_ H].
  apply (H (migrated_legacy_settings ∪ to_object DEFAULT_SETTINGS)).
  vm_compute. reflexivity.
Defined.

(** C10, as stated, fails: a persisted token limit of [10^21] is stored as
    the number [10^21], whose text is ["1e+21"], and migrating the patch
    reads it as 1. *)
Lemma migrateSettings_idempotent_counterexample :
  truthy sextillion_settings = true /\
  (migrateSettings sextillion_settings ≫= fun m => m !! "maxTokens")
  = Some (VNumber (Num (10 ^ 21))) /\
  to_String (VNumber (Num (10 ^ 21))) = Some "1e+21" /\
  (migrateSettings sextillion_settings ≫= fun m =>
   migrateSettings (VObject m) ≫= fun m' => m' !! "maxTokens")
  = Some (VNumber (Num 1)) /\
  (migrateSettings sextillion_settings ≫= fun m => migrateSettings (VObject m))
  <> migrateSettings sextillion_settings.
Proof.
  repeat split; try (vm_compute; reflexivity).
  intros E.
  apply (f_equal (fun r : option (gmap string value) =>
                    r ≫= fun m => m !! "maxTokens")) in E.
  vm_compute in E. discriminate.
Qed.

(** C10, amended: on a present input on which the migration returns,
    migrating the migrated patch returns too, and changes nothing but the
    token limit, which it reads again from the text of the stored number;
    when the stored limit is an integer below [10^21], that is the stored
    limit, so that the second migration gives the same patch, and loading
    the loaded settings leaves every field as it is. *)
Theorem migrateSettings_idempotent (d : value) (m : gmap string value) :
  truthy d = true ->
  migrateSettings d = Some m ->
  exists n,
    m !! "maxTokens" = Some (VNumber n) /\
    migrateSettings (VObject m) = Some (<["maxTokens" := VNumber (reread n)]> m) /\
    (forall z, n = Num z -> z < 10 ^ 21 ->
       migrateSettings (VObject m) = Some m /\
       loadSettings (VObject (m ∪ to_object DEFAULT_SETTINGS))
       = loadSettings d).
Proof.
  intros Ht E. pose proof (migrate_outcome d Ht) as H. rewrite E in H.
  destruct H as [_ Hm]. apply migrated_from_shape in Hm.
  destruct (migrate_again m Hm) as (n & Hn & A).
  exists n. split; [done|]. split; [done|].
  intros z -> Hz.
  assert (Hs : stored_limit (Num z)).
  { destruct Hm as [_ _ _ _ _ _ _ (n' & Hn' & S) _]. rewrite Hn in Hn'.
    by injection Hn' as <-. }
  assert (R : reread (Num z) = Num z) by (by apply reread_small).
  split.
  - rewrite A, R. by rewrite insert_id.
  - destruct (union_defaults_shape m Hm) as [Hu Hl].
    destruct (migrate_again _ Hu) as (n' & Hn' & A').
    rewrite Hl, Hn in Hn'. injection Hn' as <-.
    unfold loadSettings. rewrite A', E, R. cbn [mbind option_bind].
    rewrite insert_id by (by rewrite Hl).
    by rewrite <- (assoc_L (∪)), (idemp_L (∪)).
Qed.

Lemma migrateSettings_idempotent_witness :
  migrateSettings legacy_settings = Some migrated_legacy_settings /\
  migrateSettings (VObject migrated_legacy_settings)
  = Some migrated_legacy_settings.
Proof.
  assert (E : migrateSettings legacy_settings = Some migrated_legacy_settings)
    by (vm_compute; reflexivity).
  split; [exact E|].
  destruct (migrateSettings_idempotent legacy_settings migrated_legacy_settings
              eq_refl E) as (n & Hn & _ & H).
  apply (H 500); [|reflexivity].
  vm_compute in Hn. injection Hn as <-. reflexivity.
Defined.

(** The property of the specification on legacy keys, and the patch the
    migration makes of a legacy object. *)
Example migrateSettings_legacy_example :
  migrateSettings legacy_settings = Some migrated_legacy_settings /\
  migrated_legacy_settings !! "apiKey" = None /\
  migrated_legacy_settings !! "imgFolder" = None /\
  (migrateSettings
     (VObject {[ "apiKey" := VString "a"; "openAIapiKey" := VString "b" ]})
   ≫= fun m => m !! "apiKey1") = Some (VString "a").
Proof. repeat split; vm_compute; reflexivity. Qed.

(** On an absent input the migration gives the empty patch, so migrating
    its result is not the identity there: the empty patch is a present
    object.  A fraction is cut to its integer part, and a number from
    [10^21] on to its first digit. *)
Example migrateSettings_absent_example :
  migrateSettings VNull = Some ∅ /\
  migrateSettings VUndefined = Some ∅ /\
  (migrateSettings (VObject ∅) ≫= fun m => m !! "apiKey1") = Some (VString "") /\
  (migrateSettings (VObject {[ "maxTokens" := VNumber (decimal 47 (-1)) ]})
   ≫= fun m => m !! "maxTokens") = Some (VNumber (Num 4)) /\
  (migrateSettings (VObject {[ "maxTokens" := VNumber (decimal 7 21) ]})
   ≫= fun m => m !! "maxTokens") = Some (VNumber (Num 7)).
Proof. repeat split; vm_compute; reflexivity. Qed.
